(** * librepo: the package downloader (librepo/package_downloader.c)

    A shallow embedding of [lr_packagetarget_new], [lr_download_packages]
    and [lr_download_package], and the properties of the batch download
    path: destination resolution, the "already downloaded" short cut, the
    hand-over to the transfer engine, the copy-back of the statuses and the
    SIGINT protocol around the whole batch.

    The C code works on a heap of [LrPackageTarget] objects reached through
    pointers (the [GSList] holds pointers, each [LrDownloadTarget] carries
    its request in [userdata]), on a caller-owned [GError *] and on
    process-wide signal state.  All of that is explicit state here.

    The collaborators whose code lives elsewhere are oracles of an
    environment record [Env]:
    - the file system ([g_file_test], [g_access], [open]) answers as a
      function of the path for the length of one call;
    - the checksum verifier, the preparation of the mirrorlist and the
      transfer engine answer as functions of what they are given; the
      calls into them (with the open and close of the verified file) are
      recorded in a trace;
    - a SIGINT may arrive while the mirrorlist is prepared, while the
      targets are resolved and while the engine runs; the flag
      [lr_interrupt] is written by the handler only (this file never
      clears it, and the collaborators are taken to leave it alone).

    [assert] is modelled as the C library has it: compiled out under
    NDEBUG, [abort()] otherwise.  [handle] and [relative_url] are asserted
    non-NULL by the code and are not nullable here. *)

From Stdlib Require Import ZArith Ascii String.
From stdpp Require Import gmap strings list.

(** ** GLib path helpers

    [g_path_get_basename] and [g_build_filename] belong to GLib, not to
    librepo.  They are written out after GLib's POSIX implementation
    (gfileutils.c), with ["/"] as the only directory separator. *)
Module GLib.

Definition is_dir_separator (c : ascii) : bool := Ascii.eqb c "/"%char.

Fixpoint skip_separators (s : list ascii) : list ascii :=
  match s with
  | c :: r => if is_dir_separator c then skip_separators r else s
  | [] => []
  end.

Fixpoint leading_separators (s : list ascii) : list ascii :=
  match s with
  | c :: r => if is_dir_separator c then c :: leading_separators r else []
  | [] => []
  end.

(** The text left when the run of separators at the end is cut off. *)
Definition strip_trailing (s : list ascii) : list ascii :=
  rev (skip_separators (rev s)).

Definition trailing_separators (s : list ascii) : list ascii :=
  rev (leading_separators (rev s)).

(** The characters after the last separator. *)
Fixpoint last_component (acc s : list ascii) : list ascii :=
  match s with
  | [] => acc
  | c :: r => if is_dir_separator c then last_component [] r
              else last_component (acc ++ [c]) r
  end.

(** A name without a separator in it, and a name that does not end in
    one: the names for which joining is plain concatenation. *)
Definition plain (l : list ascii) : Prop :=
  l <> [] /\ Forall (fun c => is_dir_separator c = false) l.

Definition ends_plain (l : list ascii) : Prop :=
  exists l' c, l = l' ++ [c] /\ is_dir_separator c = false.

(** gchar *g_path_get_basename (const gchar *file_name) *)
Definition g_path_get_basename (file_name : string) : string :=
  let s := list_ascii_of_string file_name in
  match s with
  | [] => "."%string
  | _ =>
      match strip_trailing s with
      | [] => "/"%string               (* string only containing slashes *)
      | t => string_of_list_ascii (last_component [] t)
      end
  end.

(** The loop state of [g_build_path_va]. *)
Record build_state := {
  bs_result : list ascii;
  bs_is_first : bool;
  bs_have_leading : bool;
  bs_single_element : option (list ascii);
  bs_last_trailing : option (list ascii)
}.

Definition build_init : build_state :=
  {| bs_result := []; bs_is_first := true; bs_have_leading := false;
     bs_single_element := None; bs_last_trailing := None |}.

(** One turn of the loop of [g_build_path_va] on a non-empty element. *)
Definition build_step (st : build_state) (element : list ascii) : build_state :=
  match element with
  | [] => st                                     (* ignore empty elements *)
  | _ =>
      let start := skip_separators element in
      let body := strip_trailing start in
      (* [last_trailing] walks back from [end] to the head of the run of
         separators that closes the element *)
      let last_trailing :=
        match body with [] => element | _ => trailing_separators start end in
      let single :=
        if bs_have_leading st then None
        else match body with [] => Some element | _ => bs_single_element st end in
      let result :=
        if bs_have_leading st then bs_result st
        else bs_result st ++ leading_separators element in
      match body with
      | [] =>
          {| bs_result := result; bs_is_first := bs_is_first st;
             bs_have_leading := true; bs_single_element := single;
             bs_last_trailing := Some last_trailing |}
      | _ =>
          {| bs_result :=
               (if bs_is_first st then result else result ++ ["/"%char]) ++ body;
             bs_is_first := false;
             bs_have_leading := true; bs_single_element := single;
             bs_last_trailing := Some last_trailing |}
      end
  end.

(** gchar *g_build_filename (const gchar *first_element, ..., NULL) *)
Definition g_build_filename (elements : list string) : string :=
  let st := fold_left build_step (map list_ascii_of_string elements) build_init in
  match bs_single_element st with
  | Some e => string_of_list_ascii e
  | None =>
      string_of_list_ascii
        (bs_result st ++ match bs_last_trailing st with Some t => t | None => [] end)
  end.

End GLib.

Local Open Scope string_scope.
Local Open Scope list_scope.

(** ** Types of the library (types.h, rcodes.h, handle_internal.h) *)

(** Modelled from the spec: the enum [LrChecksumType] of types.h is not
    part of the sources at hand; the code only tells the distinguished
    value [LR_CHECKSUM_UNKNOWN] from the real algorithms. *)
Inductive LrChecksumType :=
  | LR_CHECKSUM_UNKNOWN
  | LR_CHECKSUM_ALGO (id : nat).

(** Modelled from the spec: the enum [LrRepotype]; only [LR_YUMREPO] is
    the mode the package downloader supports. *)
Inductive LrRepotype :=
  | LR_YUMREPO
  | LR_OTHERREPO (id : nat).

(** Modelled from the spec: the return codes of rcodes.h that this file
    raises, and the codes the collaborators may raise. *)
Inductive LrRc :=
  | LRE_BADFUNCARG
  | LRE_MEMORY
  | LRE_SIGACTION
  | LRE_INTERRUPTED
  | LRE_OTHER (code : nat).

(** Modelled from the spec: the error domain of this file (the macro
    [LR_PACKAGE_DOWNLOADER_ERROR]) among the domains of the collaborators. *)
Inductive GQuark :=
  | LR_PACKAGE_DOWNLOADER_ERROR
  | OTHER_ERROR_DOMAIN (id : nat).

Record GError := {
  domain : GQuark;
  code : LrRc;
  message : string
}.

(** [GError **err]: the caller passes [NULL] or the address of its own
    [GError *], whose content is the field [gerror] of the state. *)
Inductive GErrorPP := err_NULL | err_slot.

(** A function pointer or a [void *]: [None] is [NULL]. *)
Definition LrProgressCb := option nat.
Definition gpointer := option nat.

(** Addresses of [LrPackageTarget] objects. *)
Abbreviation ptr := positive.

Record LrPackageTarget := {
  relative_url : string;          (* asserted non-NULL by the constructor *)
  dest : option string;
  checksum_type : LrChecksumType;
  checksum : option string;
  expectedsize : Z;
  base_url : option string;
  resume : bool;
  progresscb : LrProgressCb;
  cbdata : gpointer;
  local_path : option string;
  err : option string
}.

Definition set_local_path (v : option string) (t : LrPackageTarget) : LrPackageTarget :=
  {| relative_url := relative_url t; dest := dest t;
     checksum_type := checksum_type t; checksum := checksum t;
     expectedsize := expectedsize t; base_url := base_url t;
     resume := resume t; progresscb := progresscb t; cbdata := cbdata t;
     local_path := v; err := err t |}.

Definition set_err (v : option string) (t : LrPackageTarget) : LrPackageTarget :=
  {| relative_url := relative_url t; dest := dest t;
     checksum_type := checksum_type t; checksum := checksum t;
     expectedsize := expectedsize t; base_url := base_url t;
     resume := resume t; progresscb := progresscb t; cbdata := cbdata t;
     local_path := local_path t; err := v |}.

(** Modelled from the spec: [LrDownloadTarget] (downloadtarget.h), one field
    per argument of [lr_downloadtarget_new] in the order of the call, and
    the [err] the transfer engine writes. *)
Record LrDownloadTarget := {
  dt_path : string;
  dt_baseurl : option string;
  dt_fd : Z;
  dt_fn : option string;
  dt_checksumtype : LrChecksumType;
  dt_checksum : option string;
  dt_expectedsize : Z;
  dt_resume : bool;
  dt_progresscb : LrProgressCb;
  dt_cbdata : gpointer;
  dt_userdata : ptr;
  dt_err : option string
}.

Definition lr_downloadtarget_new (path : string) (baseurl : option string)
    (fd : Z) (fn : option string) (checksumtype : LrChecksumType)
    (checksum : option string) (expectedsize : Z) (resume : bool)
    (progresscb : LrProgressCb) (cbdata : gpointer) (userdata : ptr)
  : LrDownloadTarget :=
  {| dt_path := path; dt_baseurl := baseurl; dt_fd := fd; dt_fn := fn;
     dt_checksumtype := checksumtype; dt_checksum := checksum;
     dt_expectedsize := expectedsize; dt_resume := resume;
     dt_progresscb := progresscb; dt_cbdata := cbdata;
     dt_userdata := userdata; dt_err := None |}.

Definition set_dt_err (v : option string) (t : LrDownloadTarget) : LrDownloadTarget :=
  {| dt_path := dt_path t; dt_baseurl := dt_baseurl t; dt_fd := dt_fd t;
     dt_fn := dt_fn t; dt_checksumtype := dt_checksumtype t;
     dt_checksum := dt_checksum t; dt_expectedsize := dt_expectedsize t;
     dt_resume := dt_resume t; dt_progresscb := dt_progresscb t;
     dt_cbdata := dt_cbdata t; dt_userdata := dt_userdata t; dt_err := v |}.

(** Modelled from the spec: the fields of [LrHandle] (handle_internal.h)
    that this file reads. *)
Record LrHandle := {
  repotype : LrRepotype;
  interruptible : bool;
  destdir : option string;
  user_cb : LrProgressCb;
  user_data : gpointer
}.

#[global] Instance LrChecksumType_eq_dec : EqDecision LrChecksumType.
Proof. solve_decision. Defined.
#[global] Instance LrRepotype_eq_dec : EqDecision LrRepotype.
Proof. solve_decision. Defined.

(** ** Process state and environment *)

(** The disposition of SIGINT: librepo's own handler, or whatever the
    application had (SIG_DFL, SIG_IGN or a function of its own). *)
Inductive sighandler :=
  | lr_sigint_handler
  | application_handler (id : nat).

#[global] Instance sighandler_eq_dec : EqDecision sighandler.
Proof. solve_decision. Defined.

(** Calls into the collaborators, in the order they happen. *)
Inductive Event :=
  | EvPrepareMirrorlist
  | EvOpen (path : string)
  | EvChecksumCmp (type : LrChecksumType) (path : string) (expected : string)
  | EvClose (path : string)
  | EvDownload (targets : list LrDownloadTarget) (failfast : Z).

Record World := {
  heap : gmap ptr LrPackageTarget;
  gerror : option GError;            (* the caller's [GError *] *)
  sigint_action : sighandler;        (* current disposition of SIGINT *)
  sigaction_log : list sighandler;   (* handlers installed by sigaction(), oldest first *)
  lr_interrupt : bool;               (* the process-wide flag of util.c *)
  trace : list Event
}.

Definition set_heap (h : gmap ptr LrPackageTarget) (w : World) : World :=
  {| heap := h; gerror := gerror w; sigint_action := sigint_action w;
     sigaction_log := sigaction_log w; lr_interrupt := lr_interrupt w;
     trace := trace w |}.

Definition set_gerror (e : option GError) (w : World) : World :=
  {| heap := heap w; gerror := e; sigint_action := sigint_action w;
     sigaction_log := sigaction_log w; lr_interrupt := lr_interrupt w;
     trace := trace w |}.

Definition install_handler (h : sighandler) (w : World) : World :=
  {| heap := heap w; gerror := gerror w; sigint_action := h;
     sigaction_log := sigaction_log w ++ [h]; lr_interrupt := lr_interrupt w;
     trace := trace w |}.

Definition set_lr_interrupt (b : bool) (w : World) : World :=
  {| heap := heap w; gerror := gerror w; sigint_action := sigint_action w;
     sigaction_log := sigaction_log w; lr_interrupt := b;
     trace := trace w |}.

Definition log_event (e : Event) (w : World) : World :=
  {| heap := heap w; gerror := gerror w; sigint_action := sigint_action w;
     sigaction_log := sigaction_log w; lr_interrupt := lr_interrupt w;
     trace := trace w ++ [e] |}.

(** The stretches of the batch call in which a SIGINT may arrive. *)
Inductive Phase := InPrepareMirrorlist | InResolve | InDownload.

(** What [lr_download] answers: its return value, the [GError] it raises,
    and the error string it leaves on the i-th target of the list it was
    given (the engine annotates the targets in place). *)
Record EngineResult := {
  eng_ret : bool;
  eng_gerror : option GError;
  eng_target_err : nat -> option string
}.

Record Env := {
  (* build *)
  ndebug : bool;                        (* NDEBUG: assert() compiled out *)
  LR_PACKAGEDOWNLOAD_FAILFAST : Z;      (* package_downloader.h *)
  (* file system *)
  g_file_test_is_dir : string -> bool;
  g_access_r_ok : string -> bool;       (* g_access(path, R_OK) == 0 *)
  open_rdonly : string -> bool;         (* open(path, O_RDONLY) != -1 *)
  (* checksum verifier on the open file: (return value, matches) *)
  lr_checksum_fd_cmp : LrChecksumType -> string -> string -> bool * bool;
  (* libc *)
  malloc_ok : bool;
  sigaction_ok : bool;                  (* sigaction(SIGINT, ..) != -1 *)
  sigint_during : Phase -> bool;        (* a SIGINT arrives in that phase *)
  (* librepo *)
  prepare_internal_mirrorlist : bool * option GError;
  download_engine : list LrDownloadTarget -> Z -> EngineResult
}.

(** ** The monad: state, [abort()] and undefined behaviour *)

Inductive Outcome (A : Type) :=
  | Returned (a : A) (w : World)
  | Aborted (w : World)          (* a failed assert() *)
  | Undefined.                   (* an invalid pointer or an uninitialised read *)
Arguments Returned {A} a w.
Arguments Aborted {A} w.
Arguments Undefined {A}.

Definition M (A : Type) : Type := World -> Outcome A.

Definition ret {A} (a : A) : M A := fun w => Returned a w.

Definition bind {A B} (c : M A) (k : A -> M B) : M B := fun w =>
  match c w with
  | Returned a w' => k a w'
  | Aborted w' => Aborted w'
  | Undefined => Undefined
  end.

Notation "'do' x <- c ; k" := (bind c (fun x => k))
  (at level 10, x name, c at level 100, k at level 200).
Notation "'do' ' pat <- c ; k" := (bind c (fun x => match x with pat => k end))
  (at level 10, pat pattern, c at level 100, k at level 200).
Notation "c ;; k" := (bind c (fun _ => k))
  (at level 100, k at level 200, right associativity).

Definition modify (f : World -> World) : M unit := fun w => Returned tt (f w).
Definition get {A} (f : World -> A) : M A := fun w => Returned (f w) w.
Definition undefined {A} : M A := fun _ => Undefined.

(** ** GLib errors and assert() *)

(** assert(c): aborts the process unless the build defines NDEBUG. *)
Definition assert_ (env : Env) (c : bool) : M unit := fun w =>
  if ndebug env || c then Returned tt w else Aborted w.

(** g_set_error through [err]: nothing when [err] is NULL; an error that
    is already there is kept (GLib warns and drops the new one). *)
Definition put_error (err : GErrorPP) (e : GError) (w : World) : World :=
  match err with
  | err_NULL => w
  | err_slot =>
      match gerror w with
      | None => set_gerror (Some e) w
      | Some _ => w
      end
  end.

Definition g_set_error (err : GErrorPP) (d : GQuark) (c : LrRc) (msg : string)
  : M unit :=
  modify (put_error err {| domain := d; code := c; message := msg |}).

(** How a collaborator reports the error it raised through [err]. *)
Definition raise_gerror (err : GErrorPP) (e : option GError) : M unit :=
  match e with
  | Some e => modify (put_error err e)
  | None => ret tt
  end.

Definition g_clear_error (err : GErrorPP) : M unit :=
  match err with
  | err_NULL => ret tt
  | err_slot => modify (set_gerror None)
  end.

(** The value of [!err || *err == NULL]. *)
Definition no_error_yet (err : GErrorPP) (w : World) : bool :=
  match err with
  | err_NULL => true
  | err_slot => bool_decide (gerror w = None)
  end.

(** The value of [err && *err != NULL]. *)
Definition error_is_set (err : GErrorPP) (w : World) : bool :=
  match err with
  | err_NULL => false
  | err_slot => bool_decide (gerror w <> None)
  end.

(** ** Signals *)

(** sigaction(SIGINT, &new, &old): [Some old] on success, [None] for -1.
    The call can only fail on its arguments (signal number, addresses),
    so one oracle answers for every call of a run. *)
Definition sigaction (env : Env) (new : sighandler) : M (option sighandler) := fun w =>
  if sigaction_ok env
  then Returned (Some (sigint_action w)) (install_handler new w)
  else Returned None w.

(** A SIGINT that arrives in phase [ph] runs the installed handler.
    Modelled from the spec: [lr_sigint_handler] (util.c) records the
    interruption in [lr_interrupt].  A handler of the application is the
    application's business; the model follows the executions in which
    control comes back to librepo with its state untouched. *)
Definition deliver_sigint (env : Env) (ph : Phase) (w : World) : World :=
  if sigint_during env ph then
    match sigint_action w with
    | lr_sigint_handler => set_lr_interrupt true w
    | application_handler _ => w
    end
  else w.

Definition sigint_window (env : Env) (ph : Phase) : M unit :=
  modify (deliver_sigint env ph).

(** ** Heap access *)

Definition load (p : ptr) : M LrPackageTarget := fun w =>
  match heap w !! p with
  | Some t => Returned t w
  | None => Undefined
  end.

Definition store (p : ptr) (f : LrPackageTarget -> LrPackageTarget) : M unit := fun w =>
  match heap w !! p with
  | Some t => Returned tt (set_heap (<[p := f t]> (heap w)) w)
  | None => Undefined
  end.

(** ** lr_packagetarget_new, lr_packagetarget_free *)

Definition lr_packagetarget_new (env : Env) (relative_url : string)
    (dest : option string) (checksum_type : LrChecksumType)
    (checksum : option string) (expectedsize : Z) (base_url : option string)
    (resume : bool) (progresscb : LrProgressCb) (cbdata : gpointer)
    (err : GErrorPP) : M (option ptr) :=
  do clean <- get (no_error_yet err) ;
  assert_ env clean ;;
  if negb (malloc_ok env) then
    g_set_error err LR_PACKAGE_DOWNLOADER_ERROR LRE_MEMORY "Out of memory" ;;
    ret None
  else
    do target <- get (fun w => fresh (dom (heap w))) ;
    modify (fun w => set_heap (<[target :=
      {| relative_url := relative_url; dest := dest;
         checksum_type := checksum_type; checksum := checksum;
         expectedsize := expectedsize; base_url := base_url;
         resume := resume; progresscb := progresscb; cbdata := cbdata;
         local_path := None; err := None |}]> (heap w)) w) ;;
    ret (Some target).

Definition lr_packagetarget_free (target : ptr) : M unit := fun w =>
  match heap w !! target with
  | Some _ => Returned tt (set_heap (delete target (heap w)) w)
  | None => Undefined
  end.

(** ** lr_download_packages *)

(** The marker written on a request that needs no transfer. *)
Definition already_downloaded : string := "Already downloaded".

(** "Prepare destination filename": the value given to [local_path]. *)
Definition destination_filename (env : Env) (packagetarget : LrPackageTarget)
  : string :=
  match dest packagetarget with
  | Some d =>
      if g_file_test_is_dir env d then
        (* Dir specified *)
        let file_basename := GLib.g_path_get_basename (relative_url packagetarget) in
        GLib.g_build_filename [d; file_basename]
      else d
  | None =>
      (* No destination path specified *)
      GLib.g_path_get_basename (relative_url packagetarget)
  end.

(** The inner block of the check: open the file, ask the verifier, close.
    [true] stands for [ret && matches]. *)
Definition checksum_of_local_file (env : Env) (type : LrChecksumType)
    (path expected : string) : M bool :=
  modify (log_event (EvOpen path)) ;;
  if open_rdonly env path then
    modify (log_event (EvChecksumCmp type path expected)) ;;
    let '(r, matches) := lr_checksum_fd_cmp env type path expected in
    modify (log_event (EvClose path)) ;;
    ret (r && matches)
  else ret false.

(** One turn of the loop "Prepare targets": [None] is the [continue] of an
    already downloaded package, [Some] the target to append. *)
Definition prepare_target (env : Env) (elem : ptr) : M (option LrDownloadTarget) :=
  do packagetarget <- load elem ;
  let path := destination_filename env packagetarget in
  store elem (set_local_path (Some path)) ;;
  do skip <-
    (match checksum packagetarget with
     | Some sum =>
         if g_access_r_ok env path
            && negb (bool_decide (checksum_type packagetarget = LR_CHECKSUM_UNKNOWN))
         then checksum_of_local_file env (checksum_type packagetarget) path sum
         else ret false
     | None => ret false
     end) ;
  if skip then
    store elem (set_err (Some already_downloaded)) ;;
    ret None
  else
    do packagetarget <- load elem ;
    ret (Some (lr_downloadtarget_new (relative_url packagetarget)
                                     (base_url packagetarget)
                                     (-1)
                                     (local_path packagetarget)
                                     (checksum_type packagetarget)
                                     (checksum packagetarget)
                                     (expectedsize packagetarget)
                                     (resume packagetarget)
                                     (progresscb packagetarget)
                                     (cbdata packagetarget)
                                     elem)).

(** The loop "Prepare targets" over the rest of the list, with the
    [downloadtargets] gathered so far. *)
Fixpoint prepare_targets (env : Env) (elems : list ptr)
    (downloadtargets : list LrDownloadTarget) : M (list LrDownloadTarget) :=
  match elems with
  | [] => ret downloadtargets
  | elem :: rest =>
      do o <- prepare_target env elem ;
      match o with
      | None => prepare_targets env rest downloadtargets
      | Some downloadtarget =>
          prepare_targets env rest (downloadtargets ++ [downloadtarget])
      end
  end.

(** lr_handle_prepare_internal_mirrorlist(handle, err) *)
Definition lr_handle_prepare_internal_mirrorlist (env : Env) (handle : LrHandle)
    (err : GErrorPP) : M bool :=
  modify (log_event EvPrepareMirrorlist) ;;
  sigint_window env InPrepareMirrorlist ;;
  raise_gerror err (snd (prepare_internal_mirrorlist env)) ;;
  ret (fst (prepare_internal_mirrorlist env)).

(** lr_download(handle, downloadtargets, failfast, err): the list comes
    back with the engine's error strings on its targets. *)
Definition lr_download (env : Env) (handle : LrHandle)
    (downloadtargets : list LrDownloadTarget) (failfast : Z) (err : GErrorPP)
  : M (bool * list LrDownloadTarget) :=
  modify (log_event (EvDownload downloadtargets failfast)) ;;
  sigint_window env InDownload ;;
  let r := download_engine env downloadtargets failfast in
  raise_gerror err (eng_gerror r) ;;
  ret (eng_ret r, imap (fun i t => set_dt_err (eng_target_err r i) t) downloadtargets).

(** "Copy download statuses from downloadtargets to targets" *)
Fixpoint copy_statuses (downloadtargets : list LrDownloadTarget) : M unit :=
  match downloadtargets with
  | [] => ret tt
  | downloadtarget :: rest =>
      (match dt_err downloadtarget with
       | Some e => store (dt_userdata downloadtarget) (set_err (Some e))
       | None => ret tt
       end) ;;
      copy_statuses rest
  end.

(** "Setup sighandler": [None] is the early [return FALSE]; otherwise the
    content of [old_sigact], which stays uninitialised ([None]) on a
    handle that is not interruptible. *)
Definition setup_sighandler (env : Env) (handle : LrHandle) (err : GErrorPP)
  : M (option (option sighandler)) :=
  if interruptible handle then
    do r <- sigaction env lr_sigint_handler ;
    match r with
    | None =>
        g_set_error err LR_PACKAGE_DOWNLOADER_ERROR LRE_SIGACTION
                    "Cannot set Librepo SIGINT handler" ;;
        ret None
    | Some old => ret (Some (Some old))
    end
  else ret (Some None).

(** "Restore original signal handler", and the report of an interruption. *)
Definition restore_sighandler (env : Env) (handle : LrHandle) (err : GErrorPP)
    (old_sigact : option sighandler) (r : bool) : M bool :=
  if interruptible handle then
    match old_sigact with
    | None => undefined
    | Some old =>
        sigaction env old ;;
        do interrupted <- get lr_interrupt ;
        if interrupted then
          do set <- get (error_is_set err) ;
          (if set then g_clear_error err else ret tt) ;;
          g_set_error err LR_PACKAGE_DOWNLOADER_ERROR LRE_INTERRUPTED
                      "Insterupted by a SIGINT signal" ;;
          ret false
        else ret r
    end
  else ret r.

(** Everything from the label [cleanup] to the end. *)
Definition cleanup (env : Env) (handle : LrHandle) (err : GErrorPP)
    (old_sigact : option sighandler) (r : bool)
    (downloadtargets : list LrDownloadTarget) : M bool :=
  copy_statuses downloadtargets ;;
  (* g_slist_free_full(downloadtargets, lr_downloadtarget_free) *)
  restore_sighandler env handle err old_sigact r.

Definition lr_download_packages (env : Env) (handle : LrHandle)
    (targets : list ptr) (flags : Z) (err : GErrorPP) : M bool :=
  let failfast := Z.land flags (LR_PACKAGEDOWNLOAD_FAILFAST env) in
  do clean <- get (no_error_yet err) ;
  assert_ env clean ;;
  match targets with
  | [] => ret true
  | _ :: _ =>
      (* Check repotype *)
      if negb (bool_decide (repotype handle = LR_YUMREPO)) then
        assert_ env false ;;
        g_set_error err LR_PACKAGE_DOWNLOADER_ERROR LRE_BADFUNCARG "Bad repo type" ;;
        ret false
      else
        do guard <- setup_sighandler env handle err ;
        match guard with
        | None => ret false
        | Some old_sigact =>
            (* Prepare internal mirrorlist *)
            do r <- lr_handle_prepare_internal_mirrorlist env handle err ;
            if negb r then cleanup env handle err old_sigact r []
            else
              (* Prepare targets *)
              sigint_window env InResolve ;;
              do downloadtargets <- prepare_targets env targets [] ;
              (* Start downloading *)
              do '(r, downloadtargets) <-
                 lr_download env handle downloadtargets failfast err ;
              cleanup env handle err old_sigact r downloadtargets
        end
  end.

(** ** lr_download_package *)

Definition lr_download_package (env : Env) (handle : LrHandle)
    (relative_url : string) (dest : option string)
    (checksum_type : LrChecksumType) (checksum : option string)
    (expectedsize : Z) (base_url : option string) (resume : bool)
    (err : GErrorPP) : M bool :=
  do clean <- get (no_error_yet err) ;
  assert_ env clean ;;
  let dest := match dest with Some d => Some d | None => destdir handle end in
  do target <- lr_packagetarget_new env relative_url dest checksum_type checksum
                 expectedsize base_url resume
                 (user_cb handle) (user_data handle) err ;
  match target with
  | None => ret false
  | Some target =>
      let targets := [target] in
      do r <- lr_download_packages env handle targets
                (LR_PACKAGEDOWNLOAD_FAILFAST env) err ;
      lr_packagetarget_free target ;;
      ret r
  end.

(** ** What the loop does to one request, read off the code

    Pure views of [prepare_target], used to state what the batch hands to
    the engine and leaves on the heap.  They are proved equal to the
    monadic code below ([prepare_target_run], [prepare_targets_run],
    [copy_statuses_run]). *)

(** The condition of the outer [if]: the verifier is consulted at all. *)
Definition skip_check_runs (env : Env) (t : LrPackageTarget) : bool :=
  match checksum t with
  | Some _ =>
      g_access_r_ok env (destination_filename env t)
      && negb (bool_decide (checksum_type t = LR_CHECKSUM_UNKNOWN))
  | None => false
  end.

(** The request takes the [continue]: [ret && matches] on an opened file. *)
Definition is_already_downloaded (env : Env) (t : LrPackageTarget) : bool :=
  match checksum t with
  | Some sum =>
      skip_check_runs env t
      && open_rdonly env (destination_filename env t)
      && (fst (lr_checksum_fd_cmp env (checksum_type t) (destination_filename env t) sum)
          && snd (lr_checksum_fd_cmp env (checksum_type t) (destination_filename env t) sum))
  | None => false
  end.

(** The calls one turn of the loop makes. *)
Definition check_events (env : Env) (t : LrPackageTarget) : list Event :=
  match checksum t with
  | Some sum =>
      let path := destination_filename env t in
      if skip_check_runs env t then
        if open_rdonly env path then
          [EvOpen path; EvChecksumCmp (checksum_type t) path sum; EvClose path]
        else [EvOpen path]
      else []
  | None => []
  end.

(** The request as the loop leaves it. *)
Definition resolved (env : Env) (t : LrPackageTarget) : LrPackageTarget :=
  let t' := set_local_path (Some (destination_filename env t)) t in
  if is_already_downloaded env t then set_err (Some already_downloaded) t' else t'.

(** The download target built for the request at [p]. *)
Definition target_of (env : Env) (p : ptr) (t : LrPackageTarget) : LrDownloadTarget :=
  lr_downloadtarget_new (relative_url t) (base_url t) (-1)
    (Some (destination_filename env t)) (checksum_type t) (checksum t)
    (expectedsize t) (resume t) (progresscb t) (cbdata t) p.

(** What the loop appends for the list element [p], if anything. *)
Definition planned (env : Env) (h : gmap ptr LrPackageTarget) (p : ptr)
  : option LrDownloadTarget :=
  match h !! p with
  | Some t => if is_already_downloaded env t then None else Some (target_of env p t)
  | None => None
  end.

Definition planned_events (env : Env) (h : gmap ptr LrPackageTarget) (p : ptr)
  : list Event :=
  match h !! p with
  | Some t => check_events env t
  | None => []
  end.

Definition resolve_all (env : Env) (ps : list ptr) (h : gmap ptr LrPackageTarget)
  : gmap ptr LrPackageTarget :=
  fold_left (fun h p => alter (resolved env) p h) ps h.

Definition copy_status (h : gmap ptr LrPackageTarget) (d : LrDownloadTarget)
  : gmap ptr LrPackageTarget :=
  match dt_err d with
  | Some e => alter (set_err (Some e)) (dt_userdata d) h
  | None => h
  end.

Definition copy_all (ds : list LrDownloadTarget) (h : gmap ptr LrPackageTarget)
  : gmap ptr LrPackageTarget :=
  fold_left copy_status ds h.

Definition log_events (es : list Event) (w : World) : World :=
  {| heap := heap w; gerror := gerror w; sigint_action := sigint_action w;
     sigaction_log := sigaction_log w; lr_interrupt := lr_interrupt w;
     trace := trace w ++ es |}.

(** The error string the engine left last on a target of the request [p],
    or [d] when it left none. *)
Definition engine_error_for (p : ptr) (ds : list LrDownloadTarget)
    (d : option string) : option string :=
  fold_left (fun acc t =>
               if bool_decide (dt_userdata t = p)
               then match dt_err t with Some e => Some e | None => acc end
               else acc) ds d.

(** The list as the engine gives it back. *)
Definition annotate (r : EngineResult) (ds : list LrDownloadTarget)
  : list LrDownloadTarget :=
  imap (fun i t => set_dt_err (eng_target_err r i) t) ds.

(** Every element of the list points to a live request. *)
Definition valid_targets (ps : list ptr) (w : World) : Prop :=
  Forall (fun p => is_Some (heap w !! p)) ps.

(** The error the cancellation protocol reports. *)
Definition interrupted_error : GError :=
  {| domain := LR_PACKAGE_DOWNLOADER_ERROR; code := LRE_INTERRUPTED;
     message := "Insterupted by a SIGINT signal" |}.

(** The state after the [if (lr_interrupt)] block has run. *)
Definition report_interruption (err : GErrorPP) (w : World) : World :=
  put_error err interrupted_error
    (if error_is_set err w
     then match err with err_NULL => w | err_slot => set_gerror None w end
     else w).

(** The state after a collaborator has raised [e] through [err]. *)
Definition raised (err : GErrorPP) (e : option GError) (w : World) : World :=
  match e with
  | Some e => put_error err e w
  | None => w
  end.

(** The value of [failfast]. *)
Definition failfast_of (env : Env) (flags : Z) : Z :=
  Z.land flags (LR_PACKAGEDOWNLOAD_FAILFAST env).

(** The list [lr_download_packages] hands to the engine when it gets that
    far, and what the engine answers. *)
Definition handed_over (env : Env) (targets : list ptr) (w : World)
  : list LrDownloadTarget :=
  omap (planned env (heap w)) targets.

Definition engine_answer (env : Env) (targets : list ptr) (flags : Z) (w : World)
  : EngineResult :=
  download_engine env (handed_over env targets w) (failfast_of env flags).

(** The entry assertion [assert(!err || *err == NULL)] lets the call pass. *)
Definition entry_assert_passes (env : Env) (err : GErrorPP) (w : World) : bool :=
  ndebug env || no_error_yet err w.

(** The call gets as far as the label "Prepare internal mirrorlist": the
    list is not empty, the repo type is the supported one and, on an
    interruptible handle, the SIGINT handler could be installed. *)
Definition guard_installed (env : Env) (handle : LrHandle) (targets : list ptr)
    (err : GErrorPP) (w : World) : Prop :=
  entry_assert_passes env err w = true /\
  targets <> [] /\
  repotype handle = LR_YUMREPO /\
  (interruptible handle = true -> sigaction_ok env = true).

(** The call gets as far as the loop "Prepare targets". *)
Definition reaches_resolution (env : Env) (handle : LrHandle) (targets : list ptr)
    (err : GErrorPP) (w : World) : Prop :=
  guard_installed env handle targets err w /\
  fst (prepare_internal_mirrorlist env) = true /\
  valid_targets targets w.

(** The flag as the check after [cleanup] finds it on an interruptible
    handle: set before the call, or by a SIGINT in one of the phases the
    call went through. *)
Definition interrupted_in_window (env : Env) (w : World) : bool :=
  lr_interrupt w
  || sigint_during env InPrepareMirrorlist
  || (fst (prepare_internal_mirrorlist env)
      && (sigint_during env InResolve || sigint_during env InDownload)).

(** The request at [p] takes the [continue] of the loop. *)
Definition is_skipped (env : Env) (h : gmap ptr LrPackageTarget) (p : ptr) : bool :=
  match h !! p with
  | Some t => is_already_downloaded env t
  | None => false
  end.

(** ** The states a batch call goes through, in closed form

    Proved to be the states of [lr_download_packages] in
    [batch_prepare_failed] and [batch_transfer]. *)

(** After "Setup sighandler". *)
Definition guarded (handle : LrHandle) (w : World) : World :=
  if interruptible handle then install_handler lr_sigint_handler w else w.

(** The content of [old_sigact]. *)
Definition saved_sigact (handle : LrHandle) (w : World) : option sighandler :=
  if interruptible handle then Some (sigint_action w) else None.

(** After "Prepare internal mirrorlist". *)
Definition after_prepare (env : Env) (handle : LrHandle) (err : GErrorPP)
    (w : World) : World :=
  raised err (snd (prepare_internal_mirrorlist env))
    (deliver_sigint env InPrepareMirrorlist
       (log_event EvPrepareMirrorlist (guarded handle w))).

(** After "Prepare targets". *)
Definition after_resolution (env : Env) (handle : LrHandle) (targets : list ptr)
    (err : GErrorPP) (w : World) : World :=
  set_heap (resolve_all env targets (heap w))
    (log_events (flat_map (planned_events env (heap w)) targets)
       (deliver_sigint env InResolve (after_prepare env handle err w))).

(** After "Start downloading". *)
Definition after_download (env : Env) (handle : LrHandle) (targets : list ptr)
    (flags : Z) (err : GErrorPP) (w : World) : World :=
  raised err (eng_gerror (engine_answer env targets flags w))
    (deliver_sigint env InDownload
       (log_event (EvDownload (handed_over env targets w) (failfast_of env flags))
          (after_resolution env handle targets err w))).

(** After "Copy download statuses from downloadtargets to targets". *)
Definition after_copy (env : Env) (handle : LrHandle) (targets : list ptr)
    (flags : Z) (err : GErrorPP) (w : World) : World :=
  set_heap
    (copy_all (annotate (engine_answer env targets flags w)
                        (handed_over env targets w))
              (resolve_all env targets (heap w)))
    (after_download env handle targets flags err w).

(** After "Restore original signal handler" on the state [wc] reached at
    the label, for a call entered in state [w0]; and the value returned. *)
Definition after_restore (handle : LrHandle) (err : GErrorPP) (w0 wc : World)
  : World :=
  if interruptible handle then
    if lr_interrupt wc
    then report_interruption err (install_handler (sigint_action w0) wc)
    else install_handler (sigint_action w0) wc
  else wc.

Definition result_of (handle : LrHandle) (r : bool) (wc : World) : bool :=
  if interruptible handle && lr_interrupt wc then false else r.

(** ** The statements of the specification, in its own words *)

(** Destination resolution as the specification words it: a hint that
    names an existing directory is joined with the basename of the
    relative URL, any other hint is taken verbatim, and without a hint the
    basename alone is used. *)
Definition spec_local_path (names_directory : string -> bool)
    (hint : option string) (relativeUrl : string) : string :=
  match hint with
  | None => GLib.g_path_get_basename relativeUrl
  | Some h =>
      if names_directory h
      then GLib.g_build_filename [h; GLib.g_path_get_basename relativeUrl]
      else h
  end.

(** The three terminal states of a request. *)
Inductive TerminalState :=
  | Skipped
  | Transferred
  | Failed (cause : string).

(** The [err] a request in that state carries. *)
Definition terminal_error (s : TerminalState) : option string :=
  match s with
  | Skipped => Some already_downloaded
  | Transferred => None
  | Failed cause => Some cause
  end.

(** The list as [lr_download] leaves it, and the terminal state of the
    request at [p] read off the run: skipped by the loop, or else failed
    with the error the engine left on a target of the request, or else
    transferred. *)
Definition returned_targets (env : Env) (targets : list ptr) (flags : Z)
    (w : World) : list LrDownloadTarget :=
  annotate (download_engine env (omap (planned env (heap w)) targets)
                            (Z.land flags (LR_PACKAGEDOWNLOAD_FAILFAST env)))
           (omap (planned env (heap w)) targets).

Definition terminal_state_of (env : Env) (targets : list ptr) (flags : Z)
    (w : World) (p : ptr) : TerminalState :=
  if is_skipped env (heap w) p then Skipped
  else match engine_error_for p (returned_targets env targets flags w) None with
       | Some cause => Failed cause
       | None => Transferred
       end.

(** The local path of the request at [p] once a call has returned. *)
Definition local_path_after {A} (o : Outcome A) (p : ptr) : option string :=
  match o with
  | Returned _ w' => t ← heap w' !! p; local_path t
  | _ => None
  end.

(** The request [lr_download_package] builds from its arguments. *)
Definition wrapper_request (handle : LrHandle) (rel : string)
    (hint : option string) (type : LrChecksumType) (sum : option string)
    (size : Z) (base : option string) (resume_flag : bool) : LrPackageTarget :=
  {| relative_url := rel;
     dest := match hint with Some d => Some d | None => destdir handle end;
     checksum_type := type; checksum := sum; expectedsize := size;
     base_url := base; resume := resume_flag;
     progresscb := user_cb handle; cbdata := user_data handle;
     local_path := None; err := None |}.

(** The address [lr_packagetarget_new] gets from the allocator, and the
    state in which the wrapper enters the batch call. *)
Definition wrapper_pointer (w : World) : ptr := fresh (dom (heap w)).

Definition wrapper_world (t0 : LrPackageTarget) (w : World) : World :=
  set_heap (<[wrapper_pointer w := t0]> (heap w)) w.

(** No checksum is configured for the request. *)
Definition no_checksum_configured (t : LrPackageTarget) : Prop :=
  checksum t = None \/ checksum_type t = LR_CHECKSUM_UNKNOWN.

(** A checksum is configured, and the file at the local path is missing
    or unreadable, or the verifier fails or reports a mismatch. *)
Definition check_does_not_match (env : Env) (t : LrPackageTarget) : Prop :=
  exists sum,
    checksum t = Some sum /\ checksum_type t <> LR_CHECKSUM_UNKNOWN /\
    (g_access_r_ok env (destination_filename env t) = false \/
     open_rdonly env (destination_filename env t) = false \/
     fst (lr_checksum_fd_cmp env (checksum_type t) (destination_filename env t) sum) = false \/
     snd (lr_checksum_fd_cmp env (checksum_type t) (destination_filename env t) sum) = false).

(** The error of a wrong repo type. *)
Definition bad_repo_type_error : GError :=
  {| domain := LR_PACKAGE_DOWNLOADER_ERROR; code := LRE_BADFUNCARG;
     message := "Bad repo type" |}.

(** ** A sample batch

    A directory [/tmp/repo] that already holds [bar-2.0.rpm] with the
    right digest; the engine fails on the first target it is given. *)
Definition sample_env : Env :=
  {| ndebug := false;
     LR_PACKAGEDOWNLOAD_FAILFAST := 1;
     g_file_test_is_dir := fun p => String.eqb p "/tmp/repo";
     g_access_r_ok := fun p => String.eqb p "/tmp/repo/bar-2.0.rpm";
     open_rdonly := fun p => String.eqb p "/tmp/repo/bar-2.0.rpm";
     lr_checksum_fd_cmp := fun _ _ sum => (true, String.eqb sum "abc");
     malloc_ok := true;
     sigaction_ok := true;
     sigint_during := fun _ => false;
     prepare_internal_mirrorlist := (true, None);
     download_engine := fun _ _ =>
       {| eng_ret := false;
          eng_gerror := Some {| domain := OTHER_ERROR_DOMAIN 0; code := LRE_OTHER 7;
                                message := "Download failed" |};
          eng_target_err := fun i => if Nat.eqb i 0 then Some "404" else None |} |}.

(** The same environment in a build with NDEBUG. *)
Definition release_env : Env :=
  {| ndebug := true;
     LR_PACKAGEDOWNLOAD_FAILFAST := LR_PACKAGEDOWNLOAD_FAILFAST sample_env;
     g_file_test_is_dir := g_file_test_is_dir sample_env;
     g_access_r_ok := g_access_r_ok sample_env;
     open_rdonly := open_rdonly sample_env;
     lr_checksum_fd_cmp := lr_checksum_fd_cmp sample_env;
     malloc_ok := true;
     sigaction_ok := true;
     sigint_during := sigint_during sample_env;
     prepare_internal_mirrorlist := prepare_internal_mirrorlist sample_env;
     download_engine := download_engine sample_env |}.

(** The same environment with a SIGINT during the transfer. *)
Definition interrupted_env : Env :=
  {| ndebug := false;
     LR_PACKAGEDOWNLOAD_FAILFAST := LR_PACKAGEDOWNLOAD_FAILFAST sample_env;
     g_file_test_is_dir := g_file_test_is_dir sample_env;
     g_access_r_ok := g_access_r_ok sample_env;
     open_rdonly := open_rdonly sample_env;
     lr_checksum_fd_cmp := lr_checksum_fd_cmp sample_env;
     malloc_ok := true;
     sigaction_ok := true;
     sigint_during := fun ph => match ph with InDownload => true | _ => false end;
     prepare_internal_mirrorlist := prepare_internal_mirrorlist sample_env;
     download_engine := download_engine sample_env |}.

Definition sample_request (rel : string) (d : option string)
    (type : LrChecksumType) (sum : option string) : LrPackageTarget :=
  {| relative_url := rel; dest := d; checksum_type := type; checksum := sum;
     expectedsize := 0; base_url := None; resume := true;
     progresscb := None; cbdata := None; local_path := None; err := None |}.

Definition foo_request : LrPackageTarget :=
  sample_request "pkgs/foo-1.0.rpm" (Some "/tmp/repo") (LR_CHECKSUM_ALGO 6) (Some "abc").
Definition bar_request : LrPackageTarget :=
  sample_request "pkgs/bar-2.0.rpm" (Some "/tmp/repo") (LR_CHECKSUM_ALGO 6) (Some "abc").
Definition baz_request : LrPackageTarget :=
  sample_request "pkgs/baz.rpm" None LR_CHECKSUM_UNKNOWN None.

Definition sample_world : World :=
  {| heap := <[1%positive := foo_request]>
               (<[2%positive := bar_request]> (<[3%positive := baz_request]> ∅));
     gerror := None;
     sigint_action := application_handler 0;
     sigaction_log := [];
     lr_interrupt := false;
     trace := [] |}.

Definition sample_targets : list ptr := [1; 2; 3]%positive.

Definition sample_handle : LrHandle :=
  {| repotype := LR_YUMREPO; interruptible := true; destdir := Some "/tmp/repo";
     user_cb := None; user_data := None |}.

(** A handle in a mode the package downloader does not support. *)
Definition other_handle : LrHandle :=
  {| repotype := LR_OTHERREPO 0; interruptible := true; destdir := None;
     user_cb := None; user_data := None |}.

(** ** Further notions, for the paths and functions beside the claims *)

(** The errors this file raises besides the two above. *)
Definition sigaction_error : GError :=
  {| domain := LR_PACKAGE_DOWNLOADER_ERROR; code := LRE_SIGACTION;
     message := "Cannot set Librepo SIGINT handler" |}.

Definition memory_error : GError :=
  {| domain := LR_PACKAGE_DOWNLOADER_ERROR; code := LRE_MEMORY;
     message := "Out of memory" |}.

(** Two states of one request: everything the caller gave is the same;
    [local_path] and [err] may differ. *)
Definition same_request (a b : LrPackageTarget) : Prop :=
  relative_url a = relative_url b /\ dest a = dest b /\
  checksum_type a = checksum_type b /\ checksum a = checksum b /\
  expectedsize a = expectedsize b /\ base_url a = base_url b /\
  resume a = resume b /\ progresscb a = progresscb b /\ cbdata a = cbdata b.

(** The caller's error after mirrorlist preparation and engine have
    raised theirs through [err], in that order. *)
Definition raised_by_collaborators (env : Env) (targets : list ptr) (flags : Z)
    (err : GErrorPP) (w : World) : option GError :=
  gerror (raised err (eng_gerror (engine_answer env targets flags w))
            (raised err (snd (prepare_internal_mirrorlist env)) w)).

(** Counting the file handles of a trace: opens that gave a descriptor,
    closes, and calls of the verifier. *)
Definition is_successful_open (env : Env) (e : Event) : bool :=
  match e with EvOpen path => open_rdonly env path | _ => false end.

Definition is_close (e : Event) : bool :=
  match e with EvClose _ => true | _ => false end.

Definition is_checksum_cmp (e : Event) : bool :=
  match e with EvChecksumCmp _ _ _ => true | _ => false end.

Definition count_events (f : Event -> bool) (es : list Event) : nat :=
  length (List.filter f es).

(** Environments that differ from a given one in one answer. *)
Definition with_sigint (s : Phase -> bool) (env : Env) : Env :=
  {| ndebug := ndebug env;
     LR_PACKAGEDOWNLOAD_FAILFAST := LR_PACKAGEDOWNLOAD_FAILFAST env;
     g_file_test_is_dir := g_file_test_is_dir env;
     g_access_r_ok := g_access_r_ok env;
     open_rdonly := open_rdonly env;
     lr_checksum_fd_cmp := lr_checksum_fd_cmp env;
     malloc_ok := malloc_ok env;
     sigaction_ok := sigaction_ok env;
     sigint_during := s;
     prepare_internal_mirrorlist := prepare_internal_mirrorlist env;
     download_engine := download_engine env |}.

Definition with_sigaction_ok (b : bool) (env : Env) : Env :=
  {| ndebug := ndebug env;
     LR_PACKAGEDOWNLOAD_FAILFAST := LR_PACKAGEDOWNLOAD_FAILFAST env;
     g_file_test_is_dir := g_file_test_is_dir env;
     g_access_r_ok := g_access_r_ok env;
     open_rdonly := open_rdonly env;
     lr_checksum_fd_cmp := lr_checksum_fd_cmp env;
     malloc_ok := malloc_ok env;
     sigaction_ok := b;
     sigint_during := sigint_during env;
     prepare_internal_mirrorlist := prepare_internal_mirrorlist env;
     download_engine := download_engine env |}.

Definition with_malloc_ok (b : bool) (env : Env) : Env :=
  {| ndebug := ndebug env;
     LR_PACKAGEDOWNLOAD_FAILFAST := LR_PACKAGEDOWNLOAD_FAILFAST env;
     g_file_test_is_dir := g_file_test_is_dir env;
     g_access_r_ok := g_access_r_ok env;
     open_rdonly := open_rdonly env;
     lr_checksum_fd_cmp := lr_checksum_fd_cmp env;
     malloc_ok := b;
     sigaction_ok := sigaction_ok env;
     sigint_during := sigint_during env;
     prepare_internal_mirrorlist := prepare_internal_mirrorlist env;
     download_engine := download_engine env |}.

Definition with_prepare (r : bool * option GError) (env : Env) : Env :=
  {| ndebug := ndebug env;
     LR_PACKAGEDOWNLOAD_FAILFAST := LR_PACKAGEDOWNLOAD_FAILFAST env;
     g_file_test_is_dir := g_file_test_is_dir env;
     g_access_r_ok := g_access_r_ok env;
     open_rdonly := open_rdonly env;
     lr_checksum_fd_cmp := lr_checksum_fd_cmp env;
     malloc_ok := malloc_ok env;
     sigaction_ok := sigaction_ok env;
     sigint_during := sigint_during env;
     prepare_internal_mirrorlist := r;
     download_engine := download_engine env |}.

(** The error of a mirrorlist that cannot be prepared, in the samples. *)
Definition no_mirrors_error : GError :=
  {| domain := OTHER_ERROR_DOMAIN 1; code := LRE_OTHER 3; message := "No mirrors" |}.

(** The sample handle without the SIGINT guard. *)
Definition plain_handle : LrHandle :=
  {| repotype := LR_YUMREPO; interruptible := false; destdir := Some "/tmp/repo";
     user_cb := None; user_data := None |}.

(** The sample state with an error pending in the caller's [GError *]. *)
Definition pending_error : GError :=
  {| domain := OTHER_ERROR_DOMAIN 2; code := LRE_OTHER 1; message := "Earlier failure" |}.

Definition pending_world : World := set_gerror (Some pending_error) sample_world.

(** * Basic facts *)

Example basename_ex1 : GLib.g_path_get_basename "pkgs/foo-1.0.rpm" = "foo-1.0.rpm".
Proof. reflexivity. Qed.
Example basename_ex2 : GLib.g_path_get_basename "/usr/lib/" = "lib".
Proof. reflexivity. Qed.
Example basename_ex3 : GLib.g_path_get_basename "///" = "/".
Proof. reflexivity. Qed.
Example basename_ex4 : GLib.g_path_get_basename "" = ".".
Proof. reflexivity. Qed.
Example build_ex1 : GLib.g_build_filename ["/tmp/repo"; "foo-1.0.rpm"] = "/tmp/repo/foo-1.0.rpm".
Proof. reflexivity. Qed.
Example build_ex2 : GLib.g_build_filename ["/tmp/repo/"; "/foo"] = "/tmp/repo/foo".
Proof. reflexivity. Qed.
Example build_ex3 : GLib.g_build_filename ["/tmp"; "/"] = "/tmp/".
Proof. reflexivity. Qed.
Example build_ex4 : GLib.g_build_filename ["/"; "x"] = "/x".
Proof. reflexivity. Qed.
Example build_ex5 : GLib.g_build_filename ["//"] = "//".
Proof. reflexivity. Qed.

(** ** GLib: joining plain names *)

Module GLibFacts.
Import GLib.

Lemma leading_skip l : leading_separators l ++ skip_separators l = l.
Proof.
  induction l as [|c l IH]; [reflexivity|]. simpl.
  destruct (is_dir_separator c); simpl; [by rewrite IH|reflexivity].
Qed.

Lemma skip_separators_plain_end l c :
  is_dir_separator c = false ->
  exists s, skip_separators (l ++ [c]) = s ++ [c].
Proof.
  intros Hc. induction l as [|x l IH]; simpl.
  - rewrite Hc. by exists [].
  - destruct (is_dir_separator x); [exact IH|]. by exists (x :: l).
Qed.

Lemma strip_trailing_plain_end s c :
  is_dir_separator c = false -> strip_trailing (s ++ [c]) = s ++ [c].
Proof.
  intros Hc. unfold strip_trailing. rewrite rev_app_distr. simpl. rewrite Hc.
  simpl. by rewrite rev_involutive.
Qed.

Lemma trailing_separators_plain_end s c :
  is_dir_separator c = false -> trailing_separators (s ++ [c]) = [].
Proof.
  intros Hc. unfold trailing_separators. rewrite rev_app_distr. simpl. by rewrite Hc.
Qed.

Lemma plain_ends_plain l : plain l -> ends_plain l.
Proof.
  intros [Hne Hall]. destruct (exists_last Hne) as (l' & c & ->).
  exists l', c. split; [reflexivity|].
  apply Forall_app in Hall as [_ Hc]. by inversion Hc.
Qed.

Lemma skip_separators_plain l : plain l -> skip_separators l = l.
Proof.
  intros [Hne Hall]. destruct l as [|c l]; [done|].
  apply Forall_cons in Hall as [Hc _]. simpl. by rewrite Hc.
Qed.

Lemma string_of_list_ascii_app l1 l2 :
  string_of_list_ascii (l1 ++ l2)
  = String.append (string_of_list_ascii l1) (string_of_list_ascii l2).
Proof. induction l1 as [|c l1 IH]; simpl; [reflexivity|by rewrite IH]. Qed.

Lemma build_step_body st element :
  element <> [] ->
  strip_trailing (skip_separators element) <> [] ->
  build_step st element =
    {| bs_result :=
         (if bs_is_first st
          then (if bs_have_leading st then bs_result st
                else bs_result st ++ leading_separators element)
          else (if bs_have_leading st then bs_result st
                else bs_result st ++ leading_separators element) ++ ["/"%char])
         ++ strip_trailing (skip_separators element);
       bs_is_first := false;
       bs_have_leading := true;
       bs_single_element :=
         if bs_have_leading st then None else bs_single_element st;
       bs_last_trailing := Some (trailing_separators (skip_separators element)) |}.
Proof.
  intros He Hb. unfold build_step.
  destruct element as [|c l]; [done|].
  destruct (strip_trailing (skip_separators (c :: l))); [done|]. reflexivity.
Qed.

Lemma build_filename_plain (h b : string) :
  ends_plain (list_ascii_of_string h) ->
  plain (list_ascii_of_string b) ->
  g_build_filename [h; b] = String.append h (String "/" b).
Proof.
  intros (l' & c & Hh & Hc) Hb.
  destruct (plain_ends_plain _ Hb) as (lb' & cb & Hlb & Hcb).
  unfold g_build_filename. simpl.
  set (lh := list_ascii_of_string h) in *.
  set (lb := list_ascii_of_string b) in *.
  destruct (skip_separators_plain_end l' c Hc) as [s Hs]. rewrite <- Hh in Hs.
  assert (Hbody1 : strip_trailing (skip_separators lh) = skip_separators lh).
  { rewrite Hs. by apply strip_trailing_plain_end. }
  assert (Hbody2 : strip_trailing (skip_separators lb) = lb).
  { rewrite (skip_separators_plain lb Hb), Hlb. by apply strip_trailing_plain_end. }
  rewrite (build_step_body build_init lh); cycle 1.
  { rewrite Hh. by destruct l'. }
  { rewrite Hbody1, Hs. by destruct s. }
  rewrite (build_step_body _ lb); cycle 1.
  { apply Hb. }
  { rewrite Hbody2. apply Hb. }
  simpl. rewrite Hbody1, Hbody2, leading_skip.
  rewrite (skip_separators_plain lb Hb), Hlb, (trailing_separators_plain_end lb' cb Hcb).
  rewrite <- Hlb, app_nil_r, <- app_assoc, string_of_list_ascii_app. simpl.
  unfold lh, lb. by rewrite !string_of_list_ascii_of_string.
Qed.

(** The basename of a name with a character other than the separator has
    no separator in it. *)
Lemma last_component_plain s : forall acc,
  Forall (fun c => is_dir_separator c = false) acc ->
  Forall (fun c => is_dir_separator c = false) (last_component acc s).
Proof.
  induction s as [|c s IH]; intros acc Hacc; simpl; [exact Hacc|].
  destruct (is_dir_separator c) eqn:Hc.
  - apply IH. constructor.
  - apply IH. apply Forall_app. split; [exact Hacc|]. by constructor.
Qed.

Lemma last_component_nonempty s c : forall acc,
  is_dir_separator c = false -> last_component acc (s ++ [c]) <> [].
Proof.
  induction s as [|x s IH]; intros acc Hc; simpl.
  - rewrite Hc. by destruct acc.
  - destruct (is_dir_separator x); by apply IH.
Qed.

Lemma skip_separators_head l :
  (exists c, c ∈ l /\ is_dir_separator c = false) ->
  exists c r, skip_separators l = c :: r /\ is_dir_separator c = false.
Proof.
  intros (c & Hin & Hc). induction l as [|x l IH]; [by apply elem_of_nil in Hin|].
  simpl. destruct (is_dir_separator x) eqn:Hx; [|eauto].
  apply IH. apply elem_of_cons in Hin as [->|Hin]; [congruence|exact Hin].
Qed.

Lemma strip_trailing_ends_plain l :
  (exists c, c ∈ l /\ is_dir_separator c = false) ->
  ends_plain (strip_trailing l).
Proof.
  intros (c & Hin & Hc). unfold strip_trailing.
  destruct (skip_separators_head (rev l)) as (x & r & Hs & Hx).
  { exists c. split; [|exact Hc]. rewrite list_elem_of_In in *. by apply in_rev in Hin. }
  rewrite Hs. simpl. by exists (rev r), x.
Qed.

Lemma basename_plain (file_name : string) :
  (exists c, c ∈ list_ascii_of_string file_name /\ is_dir_separator c = false) ->
  plain (list_ascii_of_string (g_path_get_basename file_name)).
Proof.
  intros Hc. unfold g_path_get_basename.
  destruct (strip_trailing_ends_plain _ Hc) as (t & x & Ht & Hx).
  destruct (list_ascii_of_string file_name) as [|a l] eqn:El.
  { destruct Hc as (c & Hin & _). by apply elem_of_nil in Hin. }
  rewrite Ht. destruct (t ++ [x]) eqn:E; [by destruct t|]. rewrite <- E.
  rewrite list_ascii_of_string_of_list_ascii. split.
  - by apply last_component_nonempty.
  - apply last_component_plain. constructor.
Qed.
End GLibFacts.

(** ** Worlds *)

Lemma world_ext (w1 w2 : World) :
  heap w1 = heap w2 -> gerror w1 = gerror w2 ->
  sigint_action w1 = sigint_action w2 -> sigaction_log w1 = sigaction_log w2 ->
  lr_interrupt w1 = lr_interrupt w2 -> trace w1 = trace w2 -> w1 = w2.
Proof. destruct w1, w2; simpl; intros; subst; reflexivity. Qed.

Lemma world_same (w : World) : set_heap (heap w) (log_events [] w) = w.
Proof. apply world_ext; simpl; rewrite ?app_nil_r; auto. Qed.

Lemma bind_run {A B} (c : M A) (k : A -> M B) w a w' :
  c w = Returned a w' -> bind c k w = k a w'.
Proof. unfold bind. intros ->. reflexivity. Qed.

Lemma alter_present {A} (f : A -> A) (h : gmap ptr A) p t :
  h !! p = Some t -> alter f p h = <[p := f t]> h.
Proof.
  intros Hp. apply map_eq. intros q. destruct (decide (p = q)) as [->|Hne].
  - rewrite lookup_alter_eq, lookup_insert_eq, Hp. reflexivity.
  - rewrite lookup_alter_ne, lookup_insert_ne by done. reflexivity.
Qed.

Lemma omap_pointwise {A B} (f g : A -> option B) (l : list A) :
  (forall x, f x = g x) -> omap f l = omap g l.
Proof.
  intros E. induction l as [|x l IH]; [reflexivity|].
  csimpl. rewrite E, IH. reflexivity.
Qed.

(** ** One turn of the loop *)

Lemma prepare_target_run env p t w :
  heap w !! p = Some t ->
  prepare_target env p w =
    Returned (if is_already_downloaded env t then None else Some (target_of env p t))
             (set_heap (<[p := resolved env t]> (heap w))
                       (log_events (check_events env t) w)).
Proof.
  intros Hp.
  assert (Hfin : forall (w1 w2 : World) (o : option LrDownloadTarget),
             heap w1 = heap w2 -> gerror w1 = gerror w2 ->
             sigint_action w1 = sigint_action w2 ->
             sigaction_log w1 = sigaction_log w2 ->
             lr_interrupt w1 = lr_interrupt w2 -> trace w1 = trace w2 ->
             Returned o w1 = Returned o w2).
  { intros w1 w2 o **. f_equal. by apply world_ext. }
  unfold prepare_target, bind, load, store, checksum_of_local_file, bind, modify, ret.
  unfold is_already_downloaded, check_events, resolved, is_already_downloaded,
    skip_check_runs, target_of.
  rewrite Hp. simpl. rewrite ?lookup_insert_eq.
  destruct (checksum t) as [sum|] eqn:Hsum; simpl;
    [destruct (g_access_r_ok env (destination_filename env t)); simpl;
     [destruct (bool_decide (checksum_type t = LR_CHECKSUM_UNKNOWN)); simpl;
      [|destruct (open_rdonly env (destination_filename env t)); simpl;
        [destruct (lr_checksum_fd_cmp env (checksum_type t)
                     (destination_filename env t) sum) as [[] []]; simpl|]]|]|];
    repeat (progress (rewrite ?Hp, ?lookup_insert_eq; simpl)); rewrite ?Hsum;
    apply Hfin; simpl; rewrite <- ?app_assoc, ?app_nil_r, ?insert_insert_eq; auto.
Qed.

Lemma resolved_downloaded env t :
  is_already_downloaded env (resolved env t) = is_already_downloaded env t.
Proof. unfold resolved. destruct (is_already_downloaded env t) eqn:E; exact E. Qed.

Lemma resolved_events env t : check_events env (resolved env t) = check_events env t.
Proof. unfold resolved. destruct (is_already_downloaded env t); reflexivity. Qed.

Lemma resolved_target env p t : target_of env p (resolved env t) = target_of env p t.
Proof. unfold resolved. destruct (is_already_downloaded env t); reflexivity. Qed.

Lemma resolved_twice env t : resolved env (resolved env t) = resolved env t.
Proof.
  unfold resolved at 1. rewrite resolved_downloaded.
  unfold resolved. destruct (is_already_downloaded env t); reflexivity.
Qed.

Lemma planned_insert env h p t q :
  h !! p = Some t -> planned env (<[p := resolved env t]> h) q = planned env h q.
Proof.
  intros Hp. unfold planned. destruct (decide (p = q)) as [->|Hne].
  - rewrite lookup_insert_eq, Hp, resolved_downloaded, resolved_target. reflexivity.
  - rewrite lookup_insert_ne by done. reflexivity.
Qed.

Lemma planned_events_insert env h p t q :
  h !! p = Some t ->
  planned_events env (<[p := resolved env t]> h) q = planned_events env h q.
Proof.
  intros Hp. unfold planned_events. destruct (decide (p = q)) as [->|Hne].
  - rewrite lookup_insert_eq, Hp, resolved_events. reflexivity.
  - rewrite lookup_insert_ne by done. reflexivity.
Qed.

(** ** The loop "Prepare targets" *)

Lemma prepare_targets_run env ps : forall acc w,
  valid_targets ps w ->
  prepare_targets env ps acc w =
    Returned (acc ++ omap (planned env (heap w)) ps)
             (set_heap (resolve_all env ps (heap w))
                       (log_events (flat_map (planned_events env (heap w)) ps) w)).
Proof.
  induction ps as [|p ps IH]; intros acc w Hv.
  - simpl. unfold ret. rewrite app_nil_r. f_equal. symmetry. apply world_same.
  - apply Forall_cons in Hv as [[t Hp] Hv].
    simpl. unfold bind. rewrite (prepare_target_run env p t w Hp).
    set (w1 := set_heap _ _).
    assert (Hh1 : heap w1 = <[p := resolved env t]> (heap w)) by reflexivity.
    assert (Hv1 : valid_targets ps w1).
    { unfold valid_targets in *. rewrite Hh1. eapply Forall_impl; [exact Hv|].
      intros q Hq. simpl in Hq. rewrite lookup_insert_is_Some.
      destruct (decide (p = q)); auto. }
    assert (Hom : omap (planned env (heap w1)) ps = omap (planned env (heap w)) ps).
    { rewrite Hh1. apply omap_pointwise. intros q. by apply planned_insert. }
    assert (Hev : flat_map (planned_events env (heap w1)) ps
                  = flat_map (planned_events env (heap w)) ps).
    { rewrite Hh1. apply flat_map_ext. intros q. by apply planned_events_insert. }
    assert (Hw : set_heap (resolve_all env ps (heap w1))
                   (log_events (flat_map (planned_events env (heap w1)) ps) w1)
                 = set_heap (resolve_all env (p :: ps) (heap w))
                     (log_events (flat_map (planned_events env (heap w)) (p :: ps)) w)).
    { rewrite Hev. apply world_ext; simpl; auto.
      - unfold resolve_all. simpl. by rewrite (alter_present _ _ _ _ Hp).
      - unfold planned_events at 2. rewrite Hp. by rewrite app_assoc. }
    assert (Hpl : planned env (heap w) p
                  = if is_already_downloaded env t then None
                    else Some (target_of env p t)).
    { unfold planned. by rewrite Hp. }
    csimpl. rewrite Hpl.
    destruct (is_already_downloaded env t).
    + rewrite (IH acc w1 Hv1), Hom, Hw. reflexivity.
    + rewrite (IH _ w1 Hv1), Hom, Hw, <- app_assoc. reflexivity.
Qed.

(** ** Fields the state transformers leave alone *)

Section Frames.
Variables (env : Env) (err : GErrorPP) (w : World).

Lemma put_error_heap e : heap (put_error err e w) = heap w.
Proof. unfold put_error. destruct err, (gerror w); reflexivity. Qed.
Lemma put_error_action e : sigint_action (put_error err e w) = sigint_action w.
Proof. unfold put_error. destruct err, (gerror w); reflexivity. Qed.
Lemma put_error_log e : sigaction_log (put_error err e w) = sigaction_log w.
Proof. unfold put_error. destruct err, (gerror w); reflexivity. Qed.
Lemma put_error_flag e : lr_interrupt (put_error err e w) = lr_interrupt w.
Proof. unfold put_error. destruct err, (gerror w); reflexivity. Qed.
Lemma put_error_trace e : trace (put_error err e w) = trace w.
Proof. unfold put_error. destruct err, (gerror w); reflexivity. Qed.

Lemma raised_heap e : heap (raised err e w) = heap w.
Proof. destruct e; [apply put_error_heap|reflexivity]. Qed.
Lemma raised_action e : sigint_action (raised err e w) = sigint_action w.
Proof. destruct e; [apply put_error_action|reflexivity]. Qed.
Lemma raised_log e : sigaction_log (raised err e w) = sigaction_log w.
Proof. destruct e; [apply put_error_log|reflexivity]. Qed.
Lemma raised_flag e : lr_interrupt (raised err e w) = lr_interrupt w.
Proof. destruct e; [apply put_error_flag|reflexivity]. Qed.
Lemma raised_trace e : trace (raised err e w) = trace w.
Proof. destruct e; [apply put_error_trace|reflexivity]. Qed.

Ltac by_delivery ph :=
  unfold deliver_sigint;
  destruct (sigint_during env ph); [destruct (sigint_action w) eqn:?|];
  simpl; first [reflexivity | assumption].

Lemma deliver_sigint_heap ph : heap (deliver_sigint env ph w) = heap w.
Proof. by_delivery ph. Qed.
Lemma deliver_sigint_gerror ph : gerror (deliver_sigint env ph w) = gerror w.
Proof. by_delivery ph. Qed.
Lemma deliver_sigint_action ph :
  sigint_action (deliver_sigint env ph w) = sigint_action w.
Proof. by_delivery ph. Qed.
Lemma deliver_sigint_log ph :
  sigaction_log (deliver_sigint env ph w) = sigaction_log w.
Proof. by_delivery ph. Qed.
Lemma deliver_sigint_trace ph : trace (deliver_sigint env ph w) = trace w.
Proof. by_delivery ph. Qed.

Lemma deliver_sigint_flag ph :
  lr_interrupt (deliver_sigint env ph w) =
    lr_interrupt w
    || (sigint_during env ph
        && bool_decide (sigint_action w = lr_sigint_handler)).
Proof.
  unfold deliver_sigint.
  destruct (sigint_during env ph); [destruct (sigint_action w) eqn:E|];
    simpl; rewrite ?orb_true_r, ?orb_false_r; reflexivity.
Qed.

Lemma report_interruption_heap : heap (report_interruption err w) = heap w.
Proof.
  unfold report_interruption, put_error.
  destruct err; [reflexivity|].
  destruct (error_is_set err_slot w); simpl; [reflexivity|].
  destruct (gerror w); reflexivity.
Qed.
Lemma report_interruption_action :
  sigint_action (report_interruption err w) = sigint_action w.
Proof.
  unfold report_interruption, put_error.
  destruct err; [reflexivity|].
  destruct (error_is_set err_slot w); simpl; [reflexivity|].
  destruct (gerror w); reflexivity.
Qed.
Lemma report_interruption_log :
  sigaction_log (report_interruption err w) = sigaction_log w.
Proof.
  unfold report_interruption, put_error.
  destruct err; [reflexivity|].
  destruct (error_is_set err_slot w); simpl; [reflexivity|].
  destruct (gerror w); reflexivity.
Qed.
Lemma report_interruption_flag :
  lr_interrupt (report_interruption err w) = lr_interrupt w.
Proof.
  unfold report_interruption, put_error.
  destruct err; [reflexivity|].
  destruct (error_is_set err_slot w); simpl; [reflexivity|].
  destruct (gerror w); reflexivity.
Qed.
Lemma report_interruption_trace :
  trace (report_interruption err w) = trace w.
Proof.
  unfold report_interruption, put_error.
  destruct err; [reflexivity|].
  destruct (error_is_set err_slot w); simpl; [reflexivity|].
  destruct (gerror w); reflexivity.
Qed.
End Frames.

Lemma raised_gerror_same err e w1 w2 :
  gerror w1 = gerror w2 -> gerror (raised err e w1) = gerror (raised err e w2).
Proof.
  intros E. destruct e as [e|]; simpl; [|exact E].
  unfold put_error. destruct err; [exact E|]. rewrite E.
  destruct (gerror w2) eqn:E2; simpl; congruence.
Qed.

Create Rewrite HintDb frame.
#[global] Hint Rewrite put_error_heap put_error_action put_error_log put_error_flag
  put_error_trace raised_heap raised_action raised_log raised_flag raised_trace
  deliver_sigint_heap deliver_sigint_gerror deliver_sigint_action
  deliver_sigint_log deliver_sigint_trace
  report_interruption_heap report_interruption_action report_interruption_log
  report_interruption_flag report_interruption_trace : frame.

(** Whatever was recorded before, the slot holds the interruption and
    nothing else; a caller that passed NULL gets no error at all. *)
Lemma report_interruption_gerror err w :
  gerror (report_interruption err w) =
    match err with
    | err_slot => Some interrupted_error
    | err_NULL => gerror w
    end.
Proof.
  unfold report_interruption, error_is_set, put_error.
  destruct err; [reflexivity|].
  destruct (gerror w) eqn:E; simpl; rewrite ?E; reflexivity.
Qed.

(** ** The requests after the loop *)

Lemma resolve_all_lookup env ps : forall h q,
  resolve_all env ps h !! q =
    (if bool_decide (q ∈ ps) then resolved env else id) <$> h !! q.
Proof.
  induction ps as [|p ps IH]; intros h q.
  - simpl. destruct (h !! q); reflexivity.
  - unfold resolve_all in *. simpl. rewrite IH.
    destruct (decide (p = q)) as [->|Hne].
    + rewrite lookup_alter_eq.
      rewrite (bool_decide_eq_true_2 (q ∈ q :: ps)) by (apply elem_of_cons; auto).
      destruct (h !! q) as [t|]; simpl; [|reflexivity].
      destruct (bool_decide (q ∈ ps)); simpl; [|reflexivity].
      by rewrite resolved_twice.
    + rewrite lookup_alter_ne by done.
      destruct (decide (q ∈ ps)) as [Hin|Hin].
      * rewrite !bool_decide_eq_true_2; [reflexivity| |done].
        apply elem_of_cons; auto.
      * rewrite !bool_decide_eq_false_2; [reflexivity| |done].
        intros [?|?]%elem_of_cons; congruence.
Qed.

(** ** The copy of the statuses *)

Lemma copy_statuses_run ds : forall w,
  Forall (fun d => is_Some (heap w !! dt_userdata d)) ds ->
  copy_statuses ds w = Returned tt (set_heap (copy_all ds (heap w)) w).
Proof.
  induction ds as [|d ds IH]; intros w Hv.
  - simpl. unfold ret. f_equal. by apply world_ext.
  - apply Forall_cons in Hv as [[t Hd] Hv].
    simpl. unfold copy_all, copy_status at 2. simpl.
    destruct (dt_err d) as [e|] eqn:He.
    + unfold bind, store. rewrite Hd.
      rewrite IH.
      * f_equal. apply world_ext; simpl; auto.
        unfold copy_all. by rewrite (alter_present _ _ _ _ Hd).
      * simpl. eapply Forall_impl; [exact Hv|]. intros x Hx. simpl in Hx.
        rewrite lookup_insert_is_Some. destruct (decide (dt_userdata d = dt_userdata x)); auto.
    + unfold bind, ret. by rewrite IH.
Qed.

Lemma copy_all_lookup ds : forall h q,
  copy_all ds h !! q =
    (fun t => set_err (engine_error_for q ds (err t)) t) <$> h !! q.
Proof.
  induction ds as [|d ds IH]; intros h q.
  - simpl. destruct (h !! q) as [[]|]; reflexivity.
  - unfold copy_all, engine_error_for in *. simpl. rewrite IH.
    unfold copy_status.
    destruct (dt_err d) as [e|] eqn:He.
    + destruct (decide (dt_userdata d = q)) as [Heq|Hne].
      * subst q. rewrite lookup_alter_eq, bool_decide_eq_true_2 by done.
        destruct (h !! dt_userdata d); reflexivity.
      * rewrite lookup_alter_ne, bool_decide_eq_false_2 by done. reflexivity.
    + destruct (bool_decide (dt_userdata d = q)); reflexivity.
Qed.

(** ** The calls around the loop *)

Lemma setup_sighandler_run env handle err w :
  (interruptible handle = true -> sigaction_ok env = true) ->
  setup_sighandler env handle err w =
    Returned (Some (if interruptible handle then Some (sigint_action w) else None))
             (if interruptible handle then install_handler lr_sigint_handler w else w).
Proof.
  intros Hok. unfold setup_sighandler, bind, sigaction.
  destruct (interruptible handle); [|reflexivity].
  rewrite Hok by reflexivity. reflexivity.
Qed.

Lemma prepare_mirrorlist_run env handle err w :
  lr_handle_prepare_internal_mirrorlist env handle err w =
    Returned (fst (prepare_internal_mirrorlist env))
             (raised err (snd (prepare_internal_mirrorlist env))
                (deliver_sigint env InPrepareMirrorlist (log_event EvPrepareMirrorlist w))).
Proof.
  unfold lr_handle_prepare_internal_mirrorlist, bind, modify, sigint_window, raise_gerror.
  destruct (snd (prepare_internal_mirrorlist env)); reflexivity.
Qed.

Lemma lr_download_run env handle ds ff err w :
  lr_download env handle ds ff err w =
    Returned (eng_ret (download_engine env ds ff), annotate (download_engine env ds ff) ds)
             (raised err (eng_gerror (download_engine env ds ff))
                (deliver_sigint env InDownload (log_event (EvDownload ds ff) w))).
Proof.
  unfold lr_download, bind, modify, sigint_window, raise_gerror.
  destruct (eng_gerror (download_engine env ds ff)); reflexivity.
Qed.

Lemma restore_sighandler_run env handle err old r w :
  interruptible handle = true -> sigaction_ok env = true ->
  restore_sighandler env handle err (Some old) r w =
    if lr_interrupt w
    then Returned false (report_interruption err (install_handler old w))
    else Returned r (install_handler old w).
Proof.
  intros Hi Hok. unfold restore_sighandler, bind, sigaction, get. rewrite Hi, Hok.
  simpl. destruct (lr_interrupt w); [|reflexivity].
  unfold g_clear_error, g_set_error, modify, ret, report_interruption.
  destruct err; simpl; [reflexivity|].
  destruct (bool_decide (gerror w <> None)); reflexivity.
Qed.

Lemma restore_sighandler_skip env handle err old r w :
  interruptible handle = false ->
  restore_sighandler env handle err old r w = Returned r w.
Proof. intros Hi. unfold restore_sighandler. rewrite Hi. reflexivity. Qed.

(** ** The batch call, path by path *)

Lemma valid_targets_heap ps w1 w2 :
  heap w1 = heap w2 -> valid_targets ps w1 -> valid_targets ps w2.
Proof. unfold valid_targets. intros ->. auto. Qed.

Lemma planned_userdata env h p d : planned env h p = Some d -> dt_userdata d = p.
Proof.
  unfold planned. destruct (h !! p) as [t|]; [|discriminate].
  destruct (is_already_downloaded env t); [discriminate|].
  intros [= <-]. reflexivity.
Qed.

Lemma annotate_userdata r ds d :
  d ∈ annotate r ds -> exists d0, d0 ∈ ds /\ dt_userdata d = dt_userdata d0.
Proof.
  unfold annotate. intros (i & d0 & -> & Hd0)%elem_of_lookup_imap.
  exists d0. split; [|reflexivity]. eapply list_elem_of_lookup_2. exact Hd0.
Qed.

(** After entry checks and guard, the call is the preparation of the
    mirrorlist followed by the rest. *)
Lemma batch_entry env handle targets flags err w :
  guard_installed env handle targets err w ->
  lr_download_packages env handle targets flags err w =
    (do r <- lr_handle_prepare_internal_mirrorlist env handle err ;
     if negb r
     then cleanup env handle err
            (if interruptible handle then Some (sigint_action w) else None) r []
     else
       sigint_window env InResolve ;;
       do downloadtargets <- prepare_targets env targets [] ;
       do '(r, downloadtargets) <-
          lr_download env handle downloadtargets (failfast_of env flags) err ;
       cleanup env handle err
         (if interruptible handle then Some (sigint_action w) else None)
         r downloadtargets)
      (if interruptible handle then install_handler lr_sigint_handler w else w).
Proof.
  intros (Hentry & Hne & Hrepo & Hsig).
  unfold lr_download_packages.
  destruct targets as [|p ps]; [done|].
  unfold bind at 1. unfold get at 1.
  unfold bind at 1. unfold assert_ at 1.
  unfold entry_assert_passes in Hentry. rewrite Hentry.
  rewrite Hrepo, bool_decide_eq_true_2 by reflexivity.
  change (negb true) with false. cbv iota.
  erewrite bind_run by (apply setup_sighandler_run; exact Hsig).
  reflexivity.
Qed.

Section Paths.
Variables (env : Env) (handle : LrHandle) (targets : list ptr) (flags : Z)
          (err : GErrorPP) (w : World).

Lemma after_prepare_heap : heap (after_prepare env handle err w) = heap w.
Proof.
  unfold after_prepare, guarded. autorewrite with frame.
  destruct (interruptible handle); reflexivity.
Qed.

Lemma after_resolution_heap :
  heap (after_resolution env handle targets err w)
  = resolve_all env targets (heap w).
Proof. reflexivity. Qed.

Lemma after_download_heap :
  heap (after_download env handle targets flags err w)
  = resolve_all env targets (heap w).
Proof. unfold after_download. autorewrite with frame. reflexivity. Qed.

(** The mirrorlist could not be prepared: nothing is resolved, nothing
    is handed to the engine. *)
Lemma batch_prepare_failed :
  guard_installed env handle targets err w ->
  fst (prepare_internal_mirrorlist env) = false ->
  lr_download_packages env handle targets flags err w =
    restore_sighandler env handle err (saved_sigact handle w) false
      (after_prepare env handle err w).
Proof.
  intros Hg Hprep. rewrite batch_entry by exact Hg.
  erewrite bind_run by apply prepare_mirrorlist_run.
  rewrite Hprep. change (negb false) with true. cbv iota.
  unfold cleanup. erewrite bind_run by reflexivity.
  reflexivity.
Qed.

(** The usual path: resolution, transfer, copy of the statuses. *)
Lemma batch_transfer :
  reaches_resolution env handle targets err w ->
  lr_download_packages env handle targets flags err w =
    restore_sighandler env handle err (saved_sigact handle w)
      (eng_ret (engine_answer env targets flags w))
      (after_copy env handle targets flags err w).
Proof.
  intros (Hg & Hprep & Hv). rewrite batch_entry by exact Hg.
  erewrite bind_run by apply prepare_mirrorlist_run.
  rewrite Hprep. change (negb true) with false. cbv iota.
  erewrite bind_run by reflexivity.
  fold (guarded handle w). fold (after_prepare env handle err w).
  assert (Hh1 : heap (deliver_sigint env InResolve (after_prepare env handle err w))
                = heap w).
  { autorewrite with frame. apply after_prepare_heap. }
  erewrite bind_run; cycle 1.
  { apply prepare_targets_run.
    eapply valid_targets_heap; [symmetry; exact Hh1|exact Hv]. }
  rewrite Hh1. simpl app. fold (handed_over env targets w).
  fold (after_resolution env handle targets err w).
  erewrite bind_run by apply lr_download_run.
  fold (engine_answer env targets flags w).
  fold (after_download env handle targets flags err w).
  unfold cleanup.
  erewrite bind_run; cycle 1.
  { apply copy_statuses_run. rewrite after_download_heap.
    apply Forall_forall. intros d (d0 & Hd0 & ->)%annotate_userdata.
    apply list_elem_of_omap in Hd0 as (p & Hp & Hpl).
    rewrite (planned_userdata _ _ _ _ Hpl), resolve_all_lookup.
    apply fmap_is_Some. unfold valid_targets in Hv.
    rewrite Forall_forall in Hv. by apply Hv. }
  rewrite after_download_heap. reflexivity.
Qed.
End Paths.

Lemma restore_sighandler_closed env handle err w0 r wc :
  (interruptible handle = true -> sigaction_ok env = true) ->
  restore_sighandler env handle err (saved_sigact handle w0) r wc =
    Returned (result_of handle r wc) (after_restore handle err w0 wc).
Proof.
  intros Hok. unfold saved_sigact, result_of, after_restore.
  destruct (interruptible handle) eqn:Hi.
  - rewrite restore_sighandler_run by auto. destruct (lr_interrupt wc); reflexivity.
  - by rewrite restore_sighandler_skip.
Qed.

Section Outcomes.
Variables (env : Env) (handle : LrHandle) (targets : list ptr) (flags : Z)
          (err : GErrorPP) (w : World).

Lemma batch_prepare_failed_outcome :
  guard_installed env handle targets err w ->
  fst (prepare_internal_mirrorlist env) = false ->
  lr_download_packages env handle targets flags err w =
    Returned (result_of handle false (after_prepare env handle err w))
             (after_restore handle err w (after_prepare env handle err w)).
Proof.
  intros Hg Hp. rewrite batch_prepare_failed by assumption.
  apply restore_sighandler_closed. apply Hg.
Qed.

Lemma batch_transfer_outcome :
  reaches_resolution env handle targets err w ->
  lr_download_packages env handle targets flags err w =
    Returned (result_of handle (eng_ret (engine_answer env targets flags w))
                (after_copy env handle targets flags err w))
             (after_restore handle err w (after_copy env handle targets flags err w)).
Proof.
  intros Hr. rewrite batch_transfer by assumption.
  apply restore_sighandler_closed. apply Hr.
Qed.

(** *** Fields of the closed forms *)

Lemma after_restore_heap wc : heap (after_restore handle err w wc) = heap wc.
Proof.
  unfold after_restore.
  destruct (interruptible handle), (lr_interrupt wc);
    autorewrite with frame; reflexivity.
Qed.

Lemma after_restore_trace wc : trace (after_restore handle err w wc) = trace wc.
Proof.
  unfold after_restore.
  destruct (interruptible handle), (lr_interrupt wc);
    autorewrite with frame; reflexivity.
Qed.

Lemma after_restore_action wc :
  interruptible handle = true ->
  sigint_action (after_restore handle err w wc) = sigint_action w.
Proof.
  unfold after_restore. intros ->.
  destruct (lr_interrupt wc); autorewrite with frame; reflexivity.
Qed.

Lemma after_restore_log wc :
  interruptible handle = true ->
  sigaction_log (after_restore handle err w wc)
  = sigaction_log wc ++ [sigint_action w].
Proof.
  unfold after_restore. intros ->.
  destruct (lr_interrupt wc); autorewrite with frame; reflexivity.
Qed.

Lemma after_restore_gerror wc :
  interruptible handle = true -> lr_interrupt wc = true ->
  gerror (after_restore handle err w wc) =
    match err with
    | err_slot => Some interrupted_error
    | err_NULL => gerror wc
    end.
Proof.
  unfold after_restore. intros -> ->. by rewrite report_interruption_gerror.
Qed.

Lemma after_prepare_trace :
  trace (after_prepare env handle err w) = trace w ++ [EvPrepareMirrorlist].
Proof.
  unfold after_prepare, guarded. autorewrite with frame.
  destruct (interruptible handle); reflexivity.
Qed.

Lemma after_prepare_action :
  sigint_action (after_prepare env handle err w)
  = if interruptible handle then lr_sigint_handler else sigint_action w.
Proof.
  unfold after_prepare, guarded. autorewrite with frame.
  destruct (interruptible handle); reflexivity.
Qed.

Lemma after_prepare_log :
  sigaction_log (after_prepare env handle err w)
  = sigaction_log w ++ (if interruptible handle then [lr_sigint_handler] else []).
Proof.
  unfold after_prepare, guarded. autorewrite with frame.
  destruct (interruptible handle); simpl; by rewrite ?app_nil_r.
Qed.

Lemma after_prepare_flag :
  interruptible handle = true ->
  lr_interrupt (after_prepare env handle err w)
  = lr_interrupt w || sigint_during env InPrepareMirrorlist.
Proof.
  unfold after_prepare, guarded. intros ->. autorewrite with frame.
  rewrite deliver_sigint_flag. simpl. by rewrite andb_true_r.
Qed.

Lemma after_copy_heap :
  heap (after_copy env handle targets flags err w)
  = copy_all (annotate (engine_answer env targets flags w)
                       (handed_over env targets w))
             (resolve_all env targets (heap w)).
Proof. reflexivity. Qed.

Lemma after_copy_trace :
  trace (after_copy env handle targets flags err w)
  = trace w ++ EvPrepareMirrorlist
      :: flat_map (planned_events env (heap w)) targets
      ++ [EvDownload (handed_over env targets w) (failfast_of env flags)].
Proof.
  unfold after_copy, after_download, after_resolution. simpl.
  autorewrite with frame. simpl. autorewrite with frame.
  rewrite after_prepare_trace. by rewrite <- !app_assoc.
Qed.

Lemma after_copy_action :
  sigint_action (after_copy env handle targets flags err w)
  = if interruptible handle then lr_sigint_handler else sigint_action w.
Proof.
  unfold after_copy, after_download, after_resolution. simpl.
  autorewrite with frame. simpl. autorewrite with frame.
  apply after_prepare_action.
Qed.

Lemma after_copy_log :
  sigaction_log (after_copy env handle targets flags err w)
  = sigaction_log w ++ (if interruptible handle then [lr_sigint_handler] else []).
Proof.
  unfold after_copy, after_download, after_resolution. simpl.
  autorewrite with frame. simpl. autorewrite with frame.
  apply after_prepare_log.
Qed.

Lemma after_copy_flag :
  interruptible handle = true ->
  lr_interrupt (after_copy env handle targets flags err w)
  = lr_interrupt w
    || sigint_during env InPrepareMirrorlist
    || (sigint_during env InResolve || sigint_during env InDownload).
Proof.
  intros Hi.
  unfold after_copy, after_download, after_resolution. simpl.
  autorewrite with frame. rewrite deliver_sigint_flag. simpl.
  autorewrite with frame. rewrite deliver_sigint_flag.
  rewrite after_prepare_action, after_prepare_flag, Hi by exact Hi.
  rewrite (bool_decide_eq_true_2 (lr_sigint_handler = lr_sigint_handler)) by reflexivity.
  rewrite !andb_true_r, <- !orb_assoc. reflexivity.
Qed.
End Outcomes.

(** * The claims *)

(** ** Empty batch *)

(** C10. An empty list of requests: the call returns TRUE at once and
    leaves the whole state as it was (no error set, no handler installed,
    no collaborator called), whatever the repo type of the handle. *)
Theorem empty_batch_succeeds env handle flags err w :
  entry_assert_passes env err w = true ->
  lr_download_packages env handle [] flags err w = Returned true w.
Proof.
  intros Hentry. unfold lr_download_packages, bind, get, assert_.
  unfold entry_assert_passes in Hentry. rewrite Hentry. reflexivity.
Qed.

Lemma empty_batch_succeeds_witness :
  repotype other_handle <> LR_YUMREPO /\
  lr_download_packages sample_env other_handle [] 1 err_slot sample_world
  = Returned true sample_world.
Proof.
  split; [discriminate|].
  apply (empty_batch_succeeds sample_env other_handle 1 err_slot sample_world).
  reflexivity.
Defined.

(** ** Wrong repo type *)

(** C9, as stated, at a concrete input: in a build with assertions the
    call on a handle of another repo type does not come back with a
    configuration error, the process is aborted at [assert(0)]. *)
Lemma bad_repotype_aborts :
  repotype other_handle <> LR_YUMREPO /\
  sample_targets <> [] /\
  ndebug sample_env = false /\
  lr_download_packages sample_env other_handle sample_targets 1 err_slot sample_world
  = Aborted sample_world.
Proof. repeat split; try discriminate; reflexivity. Qed.

(** C9, amended. A non-empty batch on a handle of another repo type does
    no partial work: with assertions compiled in the process is aborted
    in the entry state; with NDEBUG the call returns FALSE and the only
    thing it touches is the caller's error, which receives the
    bad-argument error when [err] is not NULL and holds none yet. *)
Theorem bad_repotype_no_partial_work env handle targets flags err w :
  targets <> [] ->
  repotype handle <> LR_YUMREPO ->
  lr_download_packages env handle targets flags err w =
    (if ndebug env
     then Returned false (put_error err bad_repo_type_error w)
     else Aborted w) /\
  heap (put_error err bad_repo_type_error w) = heap w /\
  sigint_action (put_error err bad_repo_type_error w) = sigint_action w /\
  sigaction_log (put_error err bad_repo_type_error w) = sigaction_log w /\
  lr_interrupt (put_error err bad_repo_type_error w) = lr_interrupt w /\
  trace (put_error err bad_repo_type_error w) = trace w /\
  gerror (put_error err bad_repo_type_error w) =
    match err, gerror w with
    | err_slot, None => Some bad_repo_type_error
    | _, e => e
    end.
Proof.
  intros Hne Hrepo. autorewrite with frame. repeat split.
  - unfold lr_download_packages, bind, get, assert_.
    destruct targets as [|p ps]; [done|].
    rewrite (bool_decide_eq_false_2 _ Hrepo).
    destruct (ndebug env); simpl; [reflexivity|].
    destruct (no_error_yet err w); reflexivity.
  - unfold put_error. destruct err; [reflexivity|].
    destruct (gerror w) eqn:E; simpl; rewrite ?E; reflexivity.
Qed.

Lemma bad_repotype_no_partial_work_witness :
  lr_download_packages release_env other_handle sample_targets 1 err_slot sample_world
  = Returned false (put_error err_slot bad_repo_type_error sample_world).
Proof.
  apply (bad_repotype_no_partial_work release_env other_handle sample_targets 1
           err_slot sample_world); discriminate.
Defined.

(** ** Requests at the end of a batch that reached the loop *)

Lemma engine_error_for_absent p ds : forall d,
  (forall x, x ∈ ds -> dt_userdata x <> p) -> engine_error_for p ds d = d.
Proof.
  induction ds as [|x ds IH]; intros d Hab; [reflexivity|].
  unfold engine_error_for in *. simpl.
  rewrite bool_decide_eq_false_2 by (apply Hab, elem_of_cons; auto).
  apply IH. intros y Hy. apply Hab, elem_of_cons. auto.
Qed.

Lemma handed_over_origin env targets w d :
  d ∈ handed_over env targets w ->
  exists t, dt_userdata d ∈ targets /\ heap w !! dt_userdata d = Some t /\
            is_already_downloaded env t = false /\
            d = target_of env (dt_userdata d) t.
Proof.
  unfold handed_over. intros (p & Hp & Hpl)%list_elem_of_omap.
  pose proof (planned_userdata _ _ _ _ Hpl) as Hu. rewrite Hu.
  unfold planned in Hpl. destruct (heap w !! p) as [t|]; [|discriminate].
  destruct (is_already_downloaded env t) eqn:Hs; [discriminate|].
  exists t. repeat split; auto. congruence.
Qed.

Lemma handed_over_present env targets w p t :
  p ∈ targets -> heap w !! p = Some t -> is_already_downloaded env t = false ->
  target_of env p t ∈ handed_over env targets w.
Proof.
  intros Hin Hp Hs. unfold handed_over. apply list_elem_of_omap.
  exists p. split; [exact Hin|]. unfold planned. by rewrite Hp, Hs.
Qed.

Lemma annotate_origin r ds d :
  d ∈ annotate r ds ->
  exists i d0, ds !! i = Some d0 /\ d = set_dt_err (eng_target_err r i) d0.
Proof.
  unfold annotate. intros (i & d0 & -> & Hd0)%elem_of_lookup_imap. eauto.
Qed.

Section FinalRequests.
Variables (env : Env) (handle : LrHandle) (targets : list ptr) (flags : Z)
          (gerr : GErrorPP) (w : World).

(** The request at [p] when the call returns. *)
Lemma final_request p t :
  p ∈ targets -> heap w !! p = Some t ->
  heap (after_restore handle gerr w (after_copy env handle targets flags gerr w)) !! p
  = Some (set_err
            (engine_error_for p
               (annotate (engine_answer env targets flags w) (handed_over env targets w))
               (err (resolved env t)))
            (resolved env t)).
Proof.
  intros Hin Hp.
  rewrite after_restore_heap, after_copy_heap, copy_all_lookup, resolve_all_lookup.
  rewrite bool_decide_eq_true_2 by exact Hin. rewrite Hp. reflexivity.
Qed.

Lemma resolved_local_path t :
  local_path (resolved env t) = Some (destination_filename env t).
Proof. unfold resolved. destruct (is_already_downloaded env t); reflexivity. Qed.

Lemma resolved_err t :
  err (resolved env t)
  = if is_already_downloaded env t then Some already_downloaded else err t.
Proof. unfold resolved. destruct (is_already_downloaded env t); reflexivity. Qed.

Lemma skipped_not_handed_over p t d :
  heap w !! p = Some t -> is_already_downloaded env t = true ->
  d ∈ handed_over env targets w -> dt_userdata d <> p.
Proof.
  intros Hp Hs (t' & _ & Hp' & Hs' & _)%handed_over_origin Heq.
  rewrite Heq in Hp'. congruence.
Qed.

Lemma skipped_not_annotated p t d :
  heap w !! p = Some t -> is_already_downloaded env t = true ->
  d ∈ annotate (engine_answer env targets flags w) (handed_over env targets w) ->
  dt_userdata d <> p.
Proof.
  intros Hp Hs (d0 & Hd0 & ->)%annotate_userdata.
  by eapply skipped_not_handed_over.
Qed.
End FinalRequests.

(** ** Destination resolution *)

Lemma destination_filename_spec env t :
  destination_filename env t
  = spec_local_path (g_file_test_is_dir env) (dest t) (relative_url t).
Proof. unfold destination_filename, spec_local_path. destruct (dest t); reflexivity. Qed.

(** C3. The local path a batch leaves in every request it resolves is the
    function of the specification: hint joined with the basename of the
    relative URL when the hint is an existing directory, the hint verbatim
    when it is anything else, the bare basename when there is no hint; so
    for the three cases of the example. *)
Theorem destination_resolution env handle targets flags err w p t :
  reaches_resolution env handle targets err w ->
  p ∈ targets ->
  heap w !! p = Some t ->
  (exists r w' t',
      lr_download_packages env handle targets flags err w = Returned r w' /\
      heap w' !! p = Some t' /\
      local_path t' =
        Some (spec_local_path (g_file_test_is_dir env) (dest t) (relative_url t))) /\
  (forall hint, dest t = Some hint -> g_file_test_is_dir env hint = true ->
     destination_filename env t
     = GLib.g_build_filename [hint; GLib.g_path_get_basename (relative_url t)]) /\
  (forall hint, dest t = Some hint -> g_file_test_is_dir env hint = true ->
     GLib.ends_plain (list_ascii_of_string hint) ->
     (exists c, c ∈ list_ascii_of_string (relative_url t) /\
                GLib.is_dir_separator c = false) ->
     destination_filename env t
     = String.append hint (String "/" (GLib.g_path_get_basename (relative_url t)))) /\
  (forall hint, dest t = Some hint -> g_file_test_is_dir env hint = false ->
     destination_filename env t = hint) /\
  (dest t = None ->
     destination_filename env t = GLib.g_path_get_basename (relative_url t)) /\
  (relative_url t = "pkgs/foo-1.0.rpm" ->
     (dest t = Some "/tmp/repo" -> g_file_test_is_dir env "/tmp/repo" = true ->
        destination_filename env t = "/tmp/repo/foo-1.0.rpm") /\
     (dest t = Some "/tmp/out.rpm" -> g_file_test_is_dir env "/tmp/out.rpm" = false ->
        destination_filename env t = "/tmp/out.rpm") /\
     (dest t = None -> destination_filename env t = "foo-1.0.rpm")).
Proof.
  intros Hr Hin Hp.
  split; [|split; [|split; [|split; [|split; [|intros Hrel; split; [|split]]]]]].
  - eexists _, _, _. split; [by apply batch_transfer_outcome|].
    split; [by apply final_request|].
    simpl. by rewrite resolved_local_path, destination_filename_spec.
  - intros hint Hd Hdir. unfold destination_filename. by rewrite Hd, Hdir.
  - intros hint Hd Hdir Hhint Hname. unfold destination_filename.
    rewrite Hd, Hdir. apply GLibFacts.build_filename_plain; [exact Hhint|].
    by apply GLibFacts.basename_plain.
  - intros hint Hd Hdir. unfold destination_filename. by rewrite Hd, Hdir.
  - intros Hd. unfold destination_filename. by rewrite Hd.
  - intros Hd Hdir. unfold destination_filename. by rewrite Hd, Hdir, Hrel.
  - intros Hd Hdir. unfold destination_filename. by rewrite Hd, Hdir.
  - intros Hd. unfold destination_filename. by rewrite Hd, Hrel.
Qed.

(** The sample batch gets as far as the loop. *)
Lemma sample_reaches_resolution :
  reaches_resolution sample_env sample_handle sample_targets err_slot sample_world.
Proof.
  repeat split; try discriminate; try reflexivity.
  unfold valid_targets, sample_targets. repeat constructor; eexists; reflexivity.
Qed.

Lemma destination_resolution_witness :
  exists r w' t',
    lr_download_packages sample_env sample_handle sample_targets 1 err_slot sample_world
    = Returned r w' /\
    heap w' !! 1%positive = Some t' /\
    local_path t' = Some "/tmp/repo/foo-1.0.rpm".
Proof.
  refine (proj1 (destination_resolution sample_env sample_handle sample_targets 1
                   err_slot sample_world 1%positive foo_request
                   sample_reaches_resolution _ _)).
  - unfold sample_targets. apply elem_of_cons. left. reflexivity.
  - reflexivity.
Defined.

(** ** The "already downloaded" short cut *)

Lemma already_downloaded_when env t sum :
  checksum t = Some sum ->
  checksum_type t <> LR_CHECKSUM_UNKNOWN ->
  g_access_r_ok env (destination_filename env t) = true ->
  open_rdonly env (destination_filename env t) = true ->
  lr_checksum_fd_cmp env (checksum_type t) (destination_filename env t) sum = (true, true) ->
  is_already_downloaded env t = true.
Proof.
  intros Hsum Hty Hacc Hop Hcmp.
  unfold is_already_downloaded, skip_check_runs.
  rewrite Hsum, Hacc, Hop, Hcmp, (bool_decide_eq_false_2 _ Hty). reflexivity.
Qed.

Lemma checks_hold_no_download env h ps ds ff :
  EvDownload ds ff ∉ flat_map (planned_events env h) ps.
Proof.
  intros (q & _ & Hq)%list_elem_of_In%in_flat_map.
  unfold planned_events, check_events in Hq.
  repeat case_match; simpl in Hq; intuition discriminate.
Qed.

(** C1. A request with a readable file at its local path, a checksum
    value and a known checksum type, on which the verifier succeeds and
    reports a match: the loop takes the [continue] without building a
    download target, the call returns with the request's [err] set to
    "Already downloaded", and no target of the list passed to
    [lr_download] belongs to the request. *)
Theorem already_downloaded_is_skipped env handle targets flags gerr w p t sum :
  reaches_resolution env handle targets gerr w ->
  p ∈ targets ->
  heap w !! p = Some t ->
  g_access_r_ok env (destination_filename env t) = true ->
  open_rdonly env (destination_filename env t) = true ->
  checksum t = Some sum ->
  checksum_type t <> LR_CHECKSUM_UNKNOWN ->
  lr_checksum_fd_cmp env (checksum_type t) (destination_filename env t) sum
  = (true, true) ->
  (forall w0, heap w0 !! p = Some t ->
     exists w1, prepare_target env p w0 = Returned None w1) /\
  exists r w' t' checks ds,
    lr_download_packages env handle targets flags gerr w = Returned r w' /\
    heap w' !! p = Some t' /\
    err t' = Some already_downloaded /\
    trace w' = trace w ++ EvPrepareMirrorlist :: checks
                 ++ [EvDownload ds (failfast_of env flags)] /\
    (forall ds' ff, EvDownload ds' ff ∉ checks) /\
    (forall d, d ∈ ds -> dt_userdata d <> p).
Proof.
  intros Hr Hin Hp Hacc Hop Hsum Hty Hcmp.
  pose proof (already_downloaded_when env t sum Hsum Hty Hacc Hop Hcmp) as Hs.
  split.
  - intros w0 Hp0. rewrite (prepare_target_run env p t w0 Hp0), Hs. eauto.
  - eexists _, _, _, _, _.
    split; [by apply batch_transfer_outcome|].
    split; [by apply final_request|].
    split.
    { simpl. rewrite engine_error_for_absent.
      - by rewrite resolved_err, Hs.
      - intros d Hd. by eapply skipped_not_annotated. }
    split; [rewrite after_restore_trace; apply after_copy_trace|].
    split; [intros ds' ff; apply checks_hold_no_download|].
    intros d Hd. by eapply skipped_not_handed_over.
Qed.

Lemma already_downloaded_is_skipped_witness :
  exists r w' t',
    lr_download_packages sample_env sample_handle sample_targets 1 err_slot sample_world
    = Returned r w' /\
    heap w' !! 2%positive = Some t' /\
    err t' = Some already_downloaded.
Proof.
  destruct (already_downloaded_is_skipped sample_env sample_handle sample_targets 1
              err_slot sample_world 2%positive bar_request "abc")
    as [_ (r & w' & t' & _ & _ & Hrun & Ht' & Herr & _)].
  - exact sample_reaches_resolution.
  - unfold sample_targets. apply elem_of_cons. right. apply elem_of_cons. left. reflexivity.
  - reflexivity.
  - reflexivity.
  - reflexivity.
  - reflexivity.
  - discriminate.
  - reflexivity.
  - exists r, w', t'. auto.
Defined.

(** ** The list handed to the transfer engine *)

Lemma handed_over_userdata env targets w :
  valid_targets targets w ->
  dt_userdata <$> handed_over env targets w
  = filter (fun p => is_skipped env (heap w) p = false) targets.
Proof.
  unfold handed_over, valid_targets.
  induction targets as [|p ps IH]; intros Hv; [reflexivity|].
  apply Forall_cons in Hv as [[t Hp] Hv]. csimpl.
  unfold planned at 1. rewrite Hp.
  destruct (is_already_downloaded env t) eqn:Hs.
  - rewrite filter_cons_False; [by apply IH|].
    unfold is_skipped. rewrite Hp, Hs. discriminate.
  - rewrite filter_cons_True; [|unfold is_skipped; by rewrite Hp, Hs].
    csimpl. by rewrite IH.
Qed.

(** C7. The requests are checked in the order of the input, then the
    engine is called once, with a list whose back references are the
    requests of the input list that were not skipped, each once per
    occurrence and in the order of the input; every target of the list is
    the one built from its request, and every request of the input has
    been resolved (its local path is set). *)
Theorem engine_gets_unskipped_in_order env handle targets flags gerr w :
  reaches_resolution env handle targets gerr w ->
  exists r w' checks ds,
    lr_download_packages env handle targets flags gerr w = Returned r w' /\
    trace w' = trace w ++ EvPrepareMirrorlist :: checks
                 ++ [EvDownload ds (failfast_of env flags)] /\
    checks = flat_map (planned_events env (heap w)) targets /\
    (forall ds' ff, EvDownload ds' ff ∉ checks) /\
    dt_userdata <$> ds
    = filter (fun p => is_skipped env (heap w) p = false) targets /\
    (forall d, d ∈ ds ->
       exists t, heap w !! dt_userdata d = Some t /\
                 d = target_of env (dt_userdata d) t) /\
    (forall p, p ∈ targets ->
       exists t t', heap w !! p = Some t /\ heap w' !! p = Some t' /\
                    local_path t' = Some (destination_filename env t)).
Proof.
  intros Hr. pose proof Hr as (_ & _ & Hv).
  exists (result_of handle (eng_ret (engine_answer env targets flags w))
            (after_copy env handle targets flags gerr w)),
         (after_restore handle gerr w (after_copy env handle targets flags gerr w)),
         (flat_map (planned_events env (heap w)) targets),
         (handed_over env targets w).
  split; [by apply batch_transfer_outcome|].
  split; [rewrite after_restore_trace; apply after_copy_trace|].
  split; [reflexivity|].
  split; [intros ds' ff; apply checks_hold_no_download|].
  split; [by apply handed_over_userdata|].
  split.
  { intros d (t & _ & Hp & _ & Hd)%handed_over_origin. eauto. }
  intros p Hin. unfold valid_targets in Hv. rewrite Forall_forall in Hv.
  destruct (Hv p Hin) as [t Hp].
  eexists t, _. split; [exact Hp|]. split; [by apply final_request|].
  simpl. apply resolved_local_path.
Qed.

Lemma engine_gets_unskipped_in_order_witness :
  exists r w' checks ds,
    lr_download_packages sample_env sample_handle sample_targets 1 err_slot sample_world
    = Returned r w' /\
    trace w' = EvPrepareMirrorlist :: checks ++ [EvDownload ds 1] /\
    dt_userdata <$> ds = [1; 3]%positive.
Proof.
  destruct (engine_gets_unskipped_in_order sample_env sample_handle sample_targets 1
              err_slot sample_world sample_reaches_resolution)
    as (r & w' & checks & ds & Hrun & Htrace & _ & _ & Hds & _).
  exists r, w', checks, ds. repeat split; [exact Hrun|exact Htrace|].
  rewrite Hds. vm_compute. reflexivity.
Defined.

(** ** Requests that are downloaded *)

Lemma no_checksum_no_check env t :
  no_checksum_configured t ->
  is_already_downloaded env t = false /\ check_events env t = [].
Proof.
  unfold is_already_downloaded, check_events, skip_check_runs.
  intros [Hsum|Hty].
  - rewrite Hsum. auto.
  - destruct (checksum t); [|auto].
    rewrite Hty, bool_decide_eq_true_2 by reflexivity.
    rewrite andb_false_r. auto.
Qed.

Lemma mismatch_not_downloaded env t :
  check_does_not_match env t -> is_already_downloaded env t = false.
Proof.
  intros (sum & Hsum & _ & Hwhy).
  unfold is_already_downloaded, skip_check_runs. rewrite Hsum.
  destruct Hwhy as [H|[H|[H|H]]]; rewrite H;
    rewrite ?andb_false_r, ?andb_false_l; reflexivity.
Qed.

(** C5. A request without a configured checksum goes through the loop
    without a call to the verifier (no file is opened) and gets its
    download target; so does a request whose check runs and does not
    end in a match.  The target carries the request's resume flag, the
    loop leaves the request's [err] and the caller's error as they were,
    and the target is in the list the engine is given. *)
Theorem unverified_request_is_downloaded env handle targets flags gerr w p t :
  reaches_resolution env handle targets gerr w ->
  p ∈ targets ->
  heap w !! p = Some t ->
  no_checksum_configured t \/ check_does_not_match env t ->
  (no_checksum_configured t ->
     forall w0, heap w0 !! p = Some t ->
       exists d w1, prepare_target env p w0 = Returned (Some d) w1 /\
                    trace w1 = trace w0) /\
  (forall w0, heap w0 !! p = Some t ->
     exists d w1 t1,
       prepare_target env p w0 = Returned (Some d) w1 /\
       dt_userdata d = p /\ dt_resume d = resume t /\
       heap w1 !! p = Some t1 /\ err t1 = err t /\
       gerror w1 = gerror w0) /\
  exists r w' checks ds d,
    lr_download_packages env handle targets flags gerr w = Returned r w' /\
    trace w' = trace w ++ EvPrepareMirrorlist :: checks
                 ++ [EvDownload ds (failfast_of env flags)] /\
    d ∈ ds /\ dt_userdata d = p /\ dt_resume d = resume t.
Proof.
  intros Hr Hin Hp Hwhy.
  assert (Hs : is_already_downloaded env t = false).
  { destruct Hwhy as [H|H]; [apply (no_checksum_no_check env t H)|].
    by apply mismatch_not_downloaded. }
  split; [|split].
  - intros Hno w0 Hp0. destruct (no_checksum_no_check env t Hno) as [_ Hev].
    rewrite (prepare_target_run env p t w0 Hp0), Hs, Hev.
    eexists _, _. split; [reflexivity|]. simpl. apply app_nil_r.
  - intros w0 Hp0. rewrite (prepare_target_run env p t w0 Hp0), Hs.
    eexists _, _, (resolved env t). split; [reflexivity|].
    split; [reflexivity|]. split; [reflexivity|].
    split; [apply lookup_insert_eq|].
    split; [by rewrite resolved_err, Hs|reflexivity].
  - eexists _, _, _, _, (target_of env p t).
    split; [by apply batch_transfer_outcome|].
    split; [rewrite after_restore_trace; apply after_copy_trace|].
    split; [by apply handed_over_present|]. split; reflexivity.
Qed.

Lemma unverified_request_is_downloaded_witness :
  exists r w' checks ds d,
    lr_download_packages sample_env sample_handle sample_targets 1 err_slot sample_world
    = Returned r w' /\
    trace w' = EvPrepareMirrorlist :: checks ++ [EvDownload ds 1] /\
    d ∈ ds /\ dt_userdata d = 3%positive /\ dt_resume d = true.
Proof.
  destruct (unverified_request_is_downloaded sample_env sample_handle sample_targets 1
              err_slot sample_world 3%positive baz_request)
    as (_ & _ & H).
  - exact sample_reaches_resolution.
  - unfold sample_targets. rewrite !elem_of_cons. auto.
  - reflexivity.
  - left. left. reflexivity.
  - exact H.
Defined.

(** ** Terminal states *)

Lemma engine_error_for_none p ds : forall d0,
  (forall d, d ∈ ds -> dt_userdata d = p -> dt_err d = None) ->
  engine_error_for p ds d0 = d0.
Proof.
  induction ds as [|x ds IH]; intros d0 Hnone; [reflexivity|].
  unfold engine_error_for in *. simpl.
  assert (Hx : (if bool_decide (dt_userdata x = p)
                then match dt_err x with Some e => Some e | None => d0 end
                else d0) = d0).
  { case_bool_decide as Hu; [|reflexivity].
    rewrite (Hnone x) by (try apply elem_of_cons; auto). reflexivity. }
  rewrite Hx. apply IH. intros d Hd. apply Hnone, elem_of_cons. auto.
Qed.

Lemma engine_error_for_source p ds : forall d0,
  engine_error_for p ds d0 = d0 \/
  exists d e, d ∈ ds /\ dt_userdata d = p /\ dt_err d = Some e /\
              engine_error_for p ds d0 = Some e.
Proof.
  induction ds as [|x ds IH]; intros d0; [left; reflexivity|].
  unfold engine_error_for in *. simpl.
  case_bool_decide as Hu.
  - destruct (dt_err x) as [e|] eqn:He.
    + destruct (IH (Some e)) as [Heq|(d & e' & Hd & Hud & Hde & Heq)].
      * right. exists x, e. rewrite Heq. repeat split; auto. apply elem_of_cons; auto.
      * right. exists d, e'. repeat split; auto. apply elem_of_cons; auto.
    + destruct (IH d0) as [Heq|(d & e' & Hd & Hud & Hde & Heq)]; [by left|].
      right. exists d, e'. repeat split; auto. apply elem_of_cons; auto.
  - destruct (IH d0) as [Heq|(d & e' & Hd & Hud & Hde & Heq)]; [by left|].
    right. exists d, e'. repeat split; auto. apply elem_of_cons; auto.
Qed.

Lemma engine_error_for_recorded p ds : forall d0 d e,
  d ∈ ds -> dt_userdata d = p -> dt_err d = Some e ->
  exists e', engine_error_for p ds d0 = Some e'.
Proof.
  induction ds as [|x ds IH] using rev_ind; intros d0 d e Hd Hu He;
    [by apply elem_of_nil in Hd|].
  unfold engine_error_for in *. rewrite fold_left_app. simpl.
  apply elem_of_app in Hd as [Hd|Hd%list_elem_of_singleton].
  - destruct (IH d0 d e Hd Hu He) as [e' He'].
    case_bool_decide; [|eauto]. destruct (dt_err x); eauto.
  - subst x. rewrite bool_decide_eq_true_2, He by exact Hu. eauto.
Qed.

Lemma engine_error_for_none_iff p ds :
  engine_error_for p ds None = None <->
  forall d, d ∈ ds -> dt_userdata d = p -> dt_err d = None.
Proof.
  split; [|apply engine_error_for_none].
  intros Hnone d Hd Hu. destruct (dt_err d) as [e|] eqn:He; [|reflexivity].
  destruct (engine_error_for_recorded p ds None d e Hd Hu He) as [e' He'].
  congruence.
Qed.

Lemma engine_error_for_default p ds : forall d0,
  engine_error_for p ds d0
  = match engine_error_for p ds None with Some e => Some e | None => d0 end.
Proof.
  induction ds as [|x ds IH]; intros d0; [reflexivity|].
  unfold engine_error_for in *. simpl.
  rewrite IH. rewrite (IH (if bool_decide (dt_userdata x = p)
                           then match dt_err x with Some e => Some e | None => None end
                           else None)).
  destruct (fold_left _ ds None); [reflexivity|].
  case_bool_decide; [|reflexivity]. by destruct (dt_err x).
Qed.



(** ** The SIGINT protocol *)

Lemma raised_null e w : raised err_NULL e w = w.
Proof. destruct e; reflexivity. Qed.

Lemma after_copy_gerror_null env handle targets flags w :
  gerror (after_copy env handle targets flags err_NULL w) = gerror w.
Proof.
  unfold after_copy, after_download, after_resolution, after_prepare, guarded.
  simpl. rewrite !raised_null. autorewrite with frame. simpl.
  autorewrite with frame. simpl. destruct (interruptible handle); reflexivity.
Qed.

Lemma after_prepare_gerror_null env handle w :
  gerror (after_prepare env handle err_NULL w) = gerror w.
Proof.
  unfold after_prepare, guarded. rewrite raised_null. autorewrite with frame.
  simpl. destruct (interruptible handle); reflexivity.
Qed.





(** ** The default destination of the handle *)

(** C4, as stated, at a concrete input: the handle has the default
    destination directory [/tmp/repo], the third request of the sample
    batch has no hint, and the batch resolves it to the bare basename, not
    to a path in the default directory. *)
Lemma batch_ignores_handle_default :
  destdir sample_handle = Some "/tmp/repo" /\
  g_file_test_is_dir sample_env "/tmp/repo" = true /\
  dest baz_request = None /\
  local_path_after
    (lr_download_packages sample_env sample_handle sample_targets 1 err_slot sample_world)
    3%positive = Some "baz.rpm" /\
  spec_local_path (g_file_test_is_dir sample_env) (destdir sample_handle)
    (relative_url baz_request) = "/tmp/repo/baz.rpm".
Proof. repeat split; vm_compute; reflexivity. Qed.

Lemma lr_packagetarget_new_run env rel hint type sum size base resume_flag cb data gerr w :
  entry_assert_passes env gerr w = true ->
  malloc_ok env = true ->
  lr_packagetarget_new env rel hint type sum size base resume_flag cb data gerr w =
    Returned (Some (fresh (dom (heap w))))
      (set_heap (<[fresh (dom (heap w)) :=
                   {| relative_url := rel; dest := hint; checksum_type := type;
                      checksum := sum; expectedsize := size; base_url := base;
                      resume := resume_flag; progresscb := cb; cbdata := data;
                      local_path := None; err := None |}]> (heap w)) w).
Proof.
  intros Hentry Hm. unfold lr_packagetarget_new, bind, get, assert_, modify, ret.
  unfold entry_assert_passes in Hentry. rewrite Hentry, Hm. reflexivity.
Qed.

Lemma fresh_pointer_unused (h : gmap ptr LrPackageTarget) : h !! fresh (dom h) = None.
Proof. apply not_elem_of_dom. apply is_fresh. Qed.

Section Wrapper.
Variables (env : Env) (handle : LrHandle) (rel : string) (hint : option string)
          (type : LrChecksumType) (sum : option string) (size : Z)
          (base : option string) (resume_flag : bool) (gerr : GErrorPP) (w : World).

Hypothesis Hentry : entry_assert_passes env gerr w = true.
Hypothesis Hmalloc : malloc_ok env = true.
Hypothesis Hrepo : repotype handle = LR_YUMREPO.
Hypothesis Hsig : interruptible handle = true -> sigaction_ok env = true.
Hypothesis Hprep : fst (prepare_internal_mirrorlist env) = true.

Lemma wrapper_reaches_resolution t0 :
  reaches_resolution env handle [wrapper_pointer w] gerr (wrapper_world t0 w).
Proof.
  repeat split; auto; try discriminate.
  unfold valid_targets. constructor; [|constructor].
  unfold wrapper_world. simpl. rewrite lookup_insert_eq. eauto.
Qed.

Lemma lr_download_package_run :
  lr_download_package env handle rel hint type sum size base resume_flag gerr w =
    Returned
      (result_of handle
         (eng_ret (engine_answer env [wrapper_pointer w] (LR_PACKAGEDOWNLOAD_FAILFAST env)
                     (wrapper_world
                        (wrapper_request handle rel hint type sum size base resume_flag) w)))
         (after_copy env handle [wrapper_pointer w] (LR_PACKAGEDOWNLOAD_FAILFAST env) gerr
            (wrapper_world
               (wrapper_request handle rel hint type sum size base resume_flag) w)))
      (set_heap
         (delete (wrapper_pointer w)
            (heap (after_restore handle gerr
                     (wrapper_world
                        (wrapper_request handle rel hint type sum size base resume_flag) w)
                     (after_copy env handle [wrapper_pointer w]
                        (LR_PACKAGEDOWNLOAD_FAILFAST env) gerr
                        (wrapper_world
                           (wrapper_request handle rel hint type sum size base resume_flag)
                           w)))))
         (after_restore handle gerr
            (wrapper_world
               (wrapper_request handle rel hint type sum size base resume_flag) w)
            (after_copy env handle [wrapper_pointer w]
               (LR_PACKAGEDOWNLOAD_FAILFAST env) gerr
               (wrapper_world
                  (wrapper_request handle rel hint type sum size base resume_flag) w)))).
Proof.
  set (t0 := wrapper_request handle rel hint type sum size base resume_flag).
  unfold lr_download_package.
  erewrite bind_run by reflexivity.
  erewrite bind_run; cycle 1.
  { unfold assert_. unfold entry_assert_passes in Hentry. by rewrite Hentry. }
  erewrite bind_run by (by apply lr_packagetarget_new_run).
  cbv beta iota.
  change (set_heap (<[fresh (dom (heap w)) := _]> (heap w)) w) with (wrapper_world t0 w).
  change (fresh (dom (heap w))) with (wrapper_pointer w).
  erewrite bind_run by (apply batch_transfer_outcome, wrapper_reaches_resolution).
  unfold bind, lr_packagetarget_free, ret.
  rewrite (final_request env handle [wrapper_pointer w] _ gerr (wrapper_world t0 w)
             (wrapper_pointer w) t0);
    [reflexivity|apply elem_of_cons; auto|].
  unfold wrapper_world. simpl. apply lookup_insert_eq.
Qed.
End Wrapper.

Lemma set_err_same t : set_err (err t) t = t.
Proof. destruct t; reflexivity. Qed.

(** The request the wrapper allocates is gone when it returns, and the
    requests that were there before are as they were. *)
Lemma wrapper_leaves_heap env handle gerr flags (w : World) p t0 :
  heap w !! p = None ->
  delete p
    (heap (after_restore handle gerr (set_heap (<[p := t0]> (heap w)) w)
             (after_copy env handle [p] flags gerr
                (set_heap (<[p := t0]> (heap w)) w))))
  = heap w.
Proof.
  intros Hfresh. apply map_eq. intros q.
  destruct (decide (p = q)) as [<-|Hne].
  - by rewrite lookup_delete_eq, Hfresh.
  - rewrite lookup_delete_ne by done.
    rewrite after_restore_heap, after_copy_heap, copy_all_lookup, resolve_all_lookup.
    rewrite bool_decide_eq_false_2; cycle 1.
    { intros [->|[]%elem_of_nil]%elem_of_cons. done. }
    set (w1 := set_heap (<[p := t0]> (heap w)) w).
    assert (Habs : forall d,
              d ∈ annotate (engine_answer env [p] flags w1) (handed_over env [p] w1) ->
              dt_userdata d <> q).
    { intros d (d0 & Hd0 & ->)%annotate_userdata.
      apply handed_over_origin in Hd0 as (_ & Hin & _).
      apply elem_of_cons in Hin as [->|[]%elem_of_nil]. done. }
    change (heap w1) with (<[p := t0]> (heap w)).
    rewrite lookup_insert_ne by done.
    destruct (heap w !! q) as [t|]; [|reflexivity].
    cbn [fmap option_fmap option_map id]. f_equal.
    rewrite engine_error_for_absent by exact Habs. apply set_err_same.
Qed.

(** C4, amended. A request of a batch without a destination hint is
    resolved to the bare basename of its relative URL, whatever default
    destination the handle has.  The default is applied by the single
    request wrapper [lr_download_package]: it builds its request with the
    hint, or with the handle's default when there is no hint, so the path
    it checks and downloads to is the resolution of that hint or default
    (the bare basename when both are absent). *)
Theorem handle_default_applies_in_wrapper_only env handle :
  (forall targets flags gerr w p t,
     reaches_resolution env handle targets gerr w ->
     p ∈ targets ->
     heap w !! p = Some t ->
     dest t = None ->
     local_path_after (lr_download_packages env handle targets flags gerr w) p
     = Some (GLib.g_path_get_basename (relative_url t))) /\
  (forall rel hint type sum size base resume_flag gerr w,
     entry_assert_passes env gerr w = true ->
     malloc_ok env = true ->
     repotype handle = LR_YUMREPO ->
     (interruptible handle = true -> sigaction_ok env = true) ->
     fst (prepare_internal_mirrorlist env) = true ->
     exists r w' p t0,
       lr_download_package env handle rel hint type sum size base resume_flag gerr w
       = Returned r w' /\
       t0 = wrapper_request handle rel hint type sum size base resume_flag /\
       heap w !! p = None /\
       trace w' = trace w ++ EvPrepareMirrorlist :: check_events env t0
                    ++ [EvDownload
                          (if is_already_downloaded env t0 then []
                           else [target_of env p t0])
                          (failfast_of env (LR_PACKAGEDOWNLOAD_FAILFAST env))] /\
       destination_filename env t0
       = spec_local_path (g_file_test_is_dir env)
           (match hint with Some d => Some d | None => destdir handle end) rel /\
       heap w' = heap w).
Proof.
  split.
  - intros targets flags gerr w p t Hr Hin Hp Hdest.
    rewrite batch_transfer_outcome by exact Hr.
    unfold local_path_after. rewrite (final_request _ _ _ _ _ _ p t Hin Hp).
    simpl. rewrite resolved_local_path. unfold destination_filename.
    by rewrite Hdest.
  - intros rel hint type sum size base resume_flag gerr w Hentry Hm Hrepo Hsig Hprep.
    pose proof (fresh_pointer_unused (heap w)) as Hfresh.
    fold (wrapper_pointer w) in Hfresh.
    set (p := wrapper_pointer w) in *.
    set (t0 := wrapper_request handle rel hint type sum size base resume_flag).
    eexists _, _, p, t0.
    split; [by apply lr_download_package_run|].
    split; [reflexivity|]. split; [exact Hfresh|].
    split.
    { simpl. rewrite after_restore_trace, after_copy_trace.
      unfold handed_over, planned_events, planned, wrapper_world. csimpl.
      fold p. rewrite lookup_insert_eq, app_nil_r. subst t0.
      by destruct (is_already_downloaded env _). }
    split; [apply destination_filename_spec|].
    simpl. unfold wrapper_world. by apply wrapper_leaves_heap.
Qed.

Lemma handle_default_applies_in_wrapper_only_witness :
  local_path_after
    (lr_download_packages sample_env sample_handle sample_targets 1 err_slot sample_world)
    3%positive
  = Some "baz.rpm" /\
  exists r w' t0,
    lr_download_package sample_env sample_handle "pkgs/baz.rpm" None
      LR_CHECKSUM_UNKNOWN None 0 None false err_slot sample_world
    = Returned r w' /\
    t0 = wrapper_request sample_handle "pkgs/baz.rpm" None LR_CHECKSUM_UNKNOWN None 0 None false /\
    destination_filename sample_env t0 = "/tmp/repo/baz.rpm".
Proof.
  destruct (handle_default_applies_in_wrapper_only sample_env sample_handle)
    as [Hbatch Hwrap].
  split.
  - apply (Hbatch sample_targets 1%Z err_slot sample_world 3%positive baz_request).
    + exact sample_reaches_resolution.
    + unfold sample_targets. rewrite !elem_of_cons. auto.
    + reflexivity.
    + reflexivity.
  - destruct (Hwrap "pkgs/baz.rpm" None LR_CHECKSUM_UNKNOWN None 0%Z None false
                err_slot sample_world)
      as (r & w' & p & t0 & Hrun & Ht0 & _ & _ & Hpath & _);
      try reflexivity.
    exists r, w', t0. split; [exact Hrun|]. split; [exact Ht0|].
    rewrite Hpath. reflexivity.
Defined.

(** * Beyond the claims: the other paths of the batch call *)

(** ** The handler cannot be installed *)

Lemma batch_sigaction_failed env handle targets flags gerr w :
  entry_assert_passes env gerr w = true ->
  targets <> [] ->
  repotype handle = LR_YUMREPO ->
  interruptible handle = true ->
  sigaction_ok env = false ->
  lr_download_packages env handle targets flags gerr w
  = Returned false (put_error gerr sigaction_error w).
Proof.
  intros Hentry Hne Hrepo Hi Hsig.
  unfold lr_download_packages.
  destruct targets as [|p ps]; [done|].
  unfold bind at 1. unfold get at 1.
  unfold bind at 1. unfold assert_ at 1.
  unfold entry_assert_passes in Hentry. rewrite Hentry.
  rewrite Hrepo, bool_decide_eq_true_2 by reflexivity.
  change (negb true) with false. cbv iota.
  unfold bind, setup_sighandler, sigaction, g_set_error, modify, ret, bind.
  rewrite Hi, Hsig. reflexivity.
Qed.

(** X1. On an interruptible handle whose SIGINT handler cannot be
    installed the call returns FALSE at once: the mirrorlist is not
    prepared, no request is touched, the disposition of SIGINT is the one
    found, and the only change is the sigaction error in the caller's
    [GError *] (when [err] is not NULL and holds no error yet). *)
Theorem sigaction_failure_is_reported env handle targets flags gerr w :
  entry_assert_passes env gerr w = true ->
  targets <> [] ->
  repotype handle = LR_YUMREPO ->
  interruptible handle = true ->
  sigaction_ok env = false ->
  exists w',
    lr_download_packages env handle targets flags gerr w = Returned false w' /\
    heap w' = heap w /\ trace w' = trace w /\
    sigint_action w' = sigint_action w /\ sigaction_log w' = sigaction_log w /\
    lr_interrupt w' = lr_interrupt w /\
    gerror w' = match gerr, gerror w with
                | err_slot, None => Some sigaction_error
                | _, e => e
                end.
Proof.
  intros Hentry Hne Hrepo Hi Hsig.
  exists (put_error gerr sigaction_error w).
  split; [by apply batch_sigaction_failed|].
  autorewrite with frame. repeat split.
  unfold put_error. destruct gerr; [reflexivity|].
  destruct (gerror w) eqn:E; simpl; rewrite ?E; reflexivity.
Qed.

Lemma sigaction_failure_is_reported_witness :
  exists w',
    lr_download_packages (with_sigaction_ok false sample_env) sample_handle
      sample_targets 1 err_slot sample_world = Returned false w' /\
    gerror w' = Some sigaction_error /\ trace w' = [] /\ heap w' = heap sample_world.
Proof.
  destruct (sigaction_failure_is_reported (with_sigaction_ok false sample_env)
              sample_handle sample_targets 1 err_slot sample_world)
    as (w' & Hrun & Hheap & Htrace & _ & _ & _ & Herr);
    try reflexivity; try discriminate.
  exists w'. auto.
Defined.

(** ** The mirrorlist cannot be prepared *)

Lemma after_prepare_gerror env handle gerr w :
  gerror (after_prepare env handle gerr w)
  = gerror (raised gerr (snd (prepare_internal_mirrorlist env)) w).
Proof.
  unfold after_prepare, guarded. apply raised_gerror_same.
  autorewrite with frame. destruct (interruptible handle); reflexivity.
Qed.

Lemma after_copy_gerror env handle targets flags gerr w :
  gerror (after_copy env handle targets flags gerr w)
  = raised_by_collaborators env targets flags gerr w.
Proof.
  unfold raised_by_collaborators, after_copy, after_download, after_resolution.
  simpl. apply raised_gerror_same. autorewrite with frame. simpl.
  autorewrite with frame. apply after_prepare_gerror.
Qed.

Lemma after_restore_gerror_quiet handle gerr w wc :
  interruptible handle && lr_interrupt wc = false ->
  gerror (after_restore handle gerr w wc) = gerror wc.
Proof.
  unfold after_restore. destruct (interruptible handle); [|reflexivity].
  simpl. intros ->. reflexivity.
Qed.

Lemma after_restore_flag handle gerr w wc :
  lr_interrupt (after_restore handle gerr w wc) = lr_interrupt wc.
Proof.
  unfold after_restore.
  destruct (interruptible handle), (lr_interrupt wc) eqn:E;
    autorewrite with frame; simpl; auto.
Qed.

(** X2. When the internal mirrorlist cannot be prepared the call returns
    FALSE without resolving anything: every request is as it was (no local
    path, no error written), the only collaborator called is the
    mirrorlist preparation, and, unless an interruption is reported, the
    caller's error is the one the preparation raised. *)
Theorem mirrorlist_failure_stops_batch env handle targets flags gerr w :
  guard_installed env handle targets gerr w ->
  fst (prepare_internal_mirrorlist env) = false ->
  exists w',
    lr_download_packages env handle targets flags gerr w = Returned false w' /\
    heap w' = heap w /\
    trace w' = trace w ++ [EvPrepareMirrorlist] /\
    (interruptible handle
     && (lr_interrupt w || sigint_during env InPrepareMirrorlist) = false ->
     gerror w' = gerror (raised gerr (snd (prepare_internal_mirrorlist env)) w)).
Proof.
  intros Hg Hprep.
  exists (after_restore handle gerr w (after_prepare env handle gerr w)).
  split.
  { rewrite batch_prepare_failed_outcome by assumption.
    unfold result_of. by destruct (_ && _). }
  split; [rewrite after_restore_heap; apply after_prepare_heap|].
  split; [rewrite after_restore_trace; apply after_prepare_trace|].
  intros Hquiet. rewrite after_restore_gerror_quiet; [apply after_prepare_gerror|].
  destruct (interruptible handle) eqn:Hi; [|reflexivity].
  rewrite andb_true_l in *. by rewrite after_prepare_flag.
Qed.

Lemma mirrorlist_failure_stops_batch_witness :
  exists w',
    lr_download_packages (with_prepare (false, Some no_mirrors_error) sample_env)
      sample_handle sample_targets 1 err_slot sample_world = Returned false w' /\
    heap w' = heap sample_world /\
    trace w' = [EvPrepareMirrorlist] /\
    gerror w' = Some no_mirrors_error.
Proof.
  destruct (mirrorlist_failure_stops_batch
              (with_prepare (false, Some no_mirrors_error) sample_env)
              sample_handle sample_targets 1 err_slot sample_world)
    as (w' & Hrun & Hheap & Htrace & Herr).
  - repeat split; try discriminate; reflexivity.
  - reflexivity.
  - exists w'. split; [exact Hrun|]. split; [exact Hheap|]. split; [exact Htrace|].
    apply Herr. reflexivity.
Defined.

(** ** No interruption to report *)

(** X3. When no interruption is reported (the handle is not
    interruptible, or the flag is clear when the handler is restored) a
    batch that reaches the engine returns what [lr_download] returned, and
    the caller's error is what mirrorlist preparation and engine raised:
    the engine's own error for a caller that came with an empty
    [GError *] and a preparation that raised none. *)
Theorem engine_result_is_returned env handle targets flags gerr w :
  reaches_resolution env handle targets gerr w ->
  interruptible handle = false \/ interrupted_in_window env w = false ->
  exists w',
    lr_download_packages env handle targets flags gerr w
    = Returned (eng_ret (download_engine env (handed_over env targets w)
                           (failfast_of env flags))) w' /\
    gerror w' = raised_by_collaborators env targets flags gerr w /\
    (gerr = err_slot -> gerror w = None ->
     snd (prepare_internal_mirrorlist env) = None ->
     gerror w' = eng_gerror (download_engine env (handed_over env targets w)
                               (failfast_of env flags))).
Proof.
  intros Hr Hquiet. pose proof Hr as (_ & Hprep & _).
  assert (Hq : interruptible handle
               && lr_interrupt (after_copy env handle targets flags gerr w) = false).
  { destruct (interruptible handle) eqn:Hi; [|reflexivity].
    destruct Hquiet as [|Hquiet]; [discriminate|].
    rewrite andb_true_l, after_copy_flag by exact Hi.
    unfold interrupted_in_window in Hquiet. by rewrite Hprep, andb_true_l in Hquiet. }
  exists (after_restore handle gerr w (after_copy env handle targets flags gerr w)).
  assert (Hge : gerror (after_restore handle gerr w
                          (after_copy env handle targets flags gerr w))
                = raised_by_collaborators env targets flags gerr w).
  { rewrite after_restore_gerror_quiet by exact Hq. apply after_copy_gerror. }
  split; [|split; [exact Hge|]].
  - rewrite batch_transfer_outcome by exact Hr. unfold result_of. by rewrite Hq.
  - intros -> Hclean Hnone. rewrite Hge.
    unfold raised_by_collaborators, engine_answer. rewrite Hnone. simpl.
    destruct (eng_gerror _) as [e|]; simpl; [|exact Hclean].
    unfold put_error. by rewrite Hclean.
Qed.

Lemma engine_result_is_returned_witness :
  exists w',
    lr_download_packages sample_env sample_handle sample_targets 1 err_slot sample_world
    = Returned false w' /\
    code <$> gerror w' = Some (LRE_OTHER 7).
Proof.
  destruct (engine_result_is_returned sample_env sample_handle sample_targets 1
              err_slot sample_world sample_reaches_resolution)
    as (w' & Hrun & _ & Herr).
  - right. reflexivity.
  - exists w'. split; [exact Hrun|]. by rewrite Herr.
Defined.



(** ** What a batch does to the heap of requests *)

Lemma same_request_refl t : same_request t t.
Proof. repeat split. Qed.

Lemma same_request_resolved env t : same_request t (resolved env t).
Proof. unfold resolved. destruct (is_already_downloaded env t); repeat split. Qed.

Lemma same_request_set_err e t t' : same_request t t' -> same_request t (set_err e t').
Proof. intros H. exact H. Qed.

Lemma transfer_heap_lookup env targets flags w q :
  copy_all (annotate (engine_answer env targets flags w) (handed_over env targets w))
           (resolve_all env targets (heap w)) !! q
  = match heap w !! q with
    | Some t =>
        if bool_decide (q ∈ targets)
        then Some (set_err
                     (engine_error_for q
                        (annotate (engine_answer env targets flags w)
                                  (handed_over env targets w))
                        (err (resolved env t)))
                     (resolved env t))
        else Some t
    | None => None
    end.
Proof.
  rewrite copy_all_lookup, resolve_all_lookup.
  destruct (heap w !! q) as [t|]; [|reflexivity].
  case_bool_decide as Hin; simpl; [reflexivity|].
  rewrite engine_error_for_absent; [by rewrite set_err_same|].
  intros d (d0 & Hd0 & ->)%annotate_userdata Heq.
  apply handed_over_origin in Hd0 as (_ & Hd0 & _). congruence.
Qed.

(** Past the entry checks the call returns on every path, and the heap is
    either untouched or the one of the transfer path. *)
Lemma batch_always_returns env handle targets flags gerr w :
  entry_assert_passes env gerr w = true ->
  targets <> [] ->
  repotype handle = LR_YUMREPO ->
  valid_targets targets w ->
  exists r w',
    lr_download_packages env handle targets flags gerr w = Returned r w' /\
    (heap w' = heap w \/
     heap w' = copy_all (annotate (engine_answer env targets flags w)
                                  (handed_over env targets w))
                        (resolve_all env targets (heap w))).
Proof.
  intros Hentry Hne Hrepo Hv.
  destruct (interruptible handle && negb (sigaction_ok env)) eqn:Hfail.
  - apply andb_true_iff in Hfail as [Hi Hsig%negb_true_iff].
    eexists _, _. split; [by apply batch_sigaction_failed|].
    left. by autorewrite with frame.
  - assert (Hg : guard_installed env handle targets gerr w).
    { repeat split; auto. intros Hi. rewrite Hi in Hfail.
      by destruct (sigaction_ok env). }
    destruct (fst (prepare_internal_mirrorlist env)) eqn:Hprep.
    + eexists _, _. split; [by apply batch_transfer_outcome|].
      right. by rewrite after_restore_heap, after_copy_heap.
    + eexists _, _. split; [by apply batch_prepare_failed_outcome|].
      left. by rewrite after_restore_heap, after_prepare_heap.
Qed.

Lemma batch_heap_effect env handle targets flags gerr w :
  entry_assert_passes env gerr w = true ->
  targets <> [] ->
  repotype handle = LR_YUMREPO ->
  valid_targets targets w ->
  exists r w',
    lr_download_packages env handle targets flags gerr w = Returned r w' /\
    forall q,
      match heap w !! q with
      | Some t => exists t', heap w' !! q = Some t' /\ same_request t t' /\
                             (q ∉ targets -> t' = t)
      | None => heap w' !! q = None
      end.
Proof.
  intros Hentry Hne Hrepo Hv.
  destruct (batch_always_returns env handle targets flags gerr w)
    as (r & w' & Hrun & [Hh|Hh]); auto; exists r, w'; (split; [exact Hrun|]);
    intros q; rewrite Hh.
  - destruct (heap w !! q) as [t|]; [|reflexivity].
    exists t. split; [reflexivity|]. split; [apply same_request_refl|auto].
  - rewrite transfer_heap_lookup.
    destruct (heap w !! q) as [t|]; [|reflexivity].
    case_bool_decide as Hin.
    + eexists. split; [reflexivity|]. split; [|done].
      apply same_request_set_err, same_request_resolved.
    + exists t. split; [reflexivity|]. split; [apply same_request_refl|auto].
Qed.



(** X6. A batch writes two fields of a request and no other: on every
    path past the entry checks each request of the heap comes back with
    the relative URL, destination, checksum type and value, expected size,
    base URL, resume flag and callback it had; only [local_path] and [err]
    can differ. *)
Theorem batch_keeps_request_fields env handle targets flags gerr w :
  entry_assert_passes env gerr w = true ->
  targets <> [] ->
  repotype handle = LR_YUMREPO ->
  valid_targets targets w ->
  exists r w',
    lr_download_packages env handle targets flags gerr w = Returned r w' /\
    forall q t, heap w !! q = Some t ->
      exists t', heap w' !! q = Some t' /\ same_request t t'.
Proof.
  intros Hentry Hne Hrepo Hv.
  destruct (batch_heap_effect env handle targets flags gerr w)
    as (r & w' & Hrun & Hq); auto.
  exists r, w'. split; [exact Hrun|].
  intros q t Ht. specialize (Hq q). rewrite Ht in Hq.
  destruct Hq as (t' & Ht' & Hsame & _). eauto.
Qed.

Lemma batch_keeps_request_fields_witness :
  exists r w' t',
    lr_download_packages sample_env sample_handle sample_targets 1 err_slot sample_world
    = Returned r w' /\
    heap w' !! 2%positive = Some t' /\
    resume t' = true /\ checksum t' = Some "abc" /\ dest t' = Some "/tmp/repo".
Proof.
  destruct (batch_keeps_request_fields sample_env sample_handle sample_targets 1
              err_slot sample_world)
    as (r & w' & Hrun & Hq); try reflexivity; try discriminate.
  - unfold valid_targets, sample_targets. repeat constructor; eexists; reflexivity.
  - destruct (Hq 2%positive bar_request eq_refl)
      as (t' & Ht' & _ & Hdest & _ & Hsum & _ & _ & Hres & _).
    exists r, w', t'. split; [exact Hrun|]. split; [exact Ht'|].
    rewrite <- Hres, <- Hsum, <- Hdest. auto.
Defined.

(** ** One request, one status *)

Lemma engine_error_for_single p ds : forall i d d0,
  NoDup (dt_userdata <$> ds) ->
  ds !! i = Some d ->
  dt_userdata d = p ->
  engine_error_for p ds d0
  = match dt_err d with Some e => Some e | None => d0 end.
Proof.
  induction ds as [|x ds IH]; intros i d d0 Hnd Hi Hu; [done|].
  rewrite fmap_cons in Hnd. apply NoDup_cons in Hnd as [Hx Hnd].
  unfold engine_error_for in *. simpl.
  destruct i as [|i]; simpl in Hi.
  - injection Hi as ->. rewrite bool_decide_eq_true_2 by exact Hu.
    apply engine_error_for_absent. intros y Hy Hyp.
    apply Hx. rewrite Hu, <- Hyp. by apply list_elem_of_fmap_2.
  - rewrite bool_decide_eq_false_2; [by eapply IH|].
    intros Hxp. apply Hx. rewrite Hxp, <- Hu.
    apply list_elem_of_fmap_2. by eapply list_elem_of_lookup_2.
Qed.

Lemma annotate_userdata_list r ds :
  dt_userdata <$> annotate r ds = dt_userdata <$> ds.
Proof.
  unfold annotate. apply list_eq. intros i.
  rewrite !list_lookup_fmap, list_lookup_imap.
  destruct (ds !! i); reflexivity.
Qed.

(** X7. In a batch without a request listed twice every request gets the
    status of its own transfer: the request behind the i-th target of the
    list given to the engine ends with the error string the engine left
    on that i-th target, and with the [err] it had when the engine left
    none there; errors of other targets do not reach it. *)
Theorem each_request_gets_its_own_status env handle targets flags gerr w i d t :
  reaches_resolution env handle targets gerr w ->
  NoDup targets ->
  handed_over env targets w !! i = Some d ->
  heap w !! dt_userdata d = Some t ->
  exists r w' t',
    lr_download_packages env handle targets flags gerr w = Returned r w' /\
    heap w' !! dt_userdata d = Some t' /\
    err t' = match eng_target_err
                     (download_engine env (handed_over env targets w)
                        (failfast_of env flags)) i with
             | Some e => Some e
             | None => err t
             end.
Proof.
  intros Hr Hnd Hi Ht. pose proof Hr as (_ & _ & Hv).
  assert (Hd : d ∈ handed_over env targets w) by (by eapply list_elem_of_lookup_2).
  destruct (handed_over_origin _ _ _ _ Hd) as (t0 & Hin & Ht0 & Hs & _).
  assert (t0 = t) as -> by congruence.
  eexists _, _, _. split; [by apply batch_transfer_outcome|].
  split; [by apply final_request|].
  simpl. rewrite resolved_err, Hs.
  erewrite (engine_error_for_single (dt_userdata d) _ i
              (set_dt_err (eng_target_err (engine_answer env targets flags w) i) d)).
  - reflexivity.
  - rewrite annotate_userdata_list, handed_over_userdata by exact Hv.
    by apply NoDup_filter.
  - unfold annotate. by rewrite list_lookup_imap, Hi.
  - reflexivity.
Qed.

Lemma each_request_gets_its_own_status_witness :
  exists r w' t',
    lr_download_packages sample_env sample_handle sample_targets 1 err_slot sample_world
    = Returned r w' /\
    heap w' !! 3%positive = Some t' /\ err t' = None.
Proof.
  destruct (each_request_gets_its_own_status sample_env sample_handle sample_targets 1
              err_slot sample_world 1
              (target_of sample_env 3%positive baz_request) baz_request
              sample_reaches_resolution)
    as (r & w' & t' & Hrun & Ht' & Herr).
  - unfold sample_targets. repeat constructor; rewrite ?elem_of_cons, ?elem_of_nil;
      intuition discriminate.
  - reflexivity.
  - reflexivity.
  - exists r, w', t'. auto.
Defined.

(** ** Resolution reads what the caller gave, not what a batch wrote *)

Lemma same_request_views env p t t' :
  same_request t t' ->
  destination_filename env t' = destination_filename env t /\
  is_already_downloaded env t' = is_already_downloaded env t /\
  target_of env p t' = target_of env p t.
Proof.
  destruct t, t'. unfold same_request. simpl.
  intros (-> & -> & -> & -> & -> & -> & -> & -> & ->). repeat split.
Qed.

(** X8. The decisions of the loop depend on what the caller put into a
    request, not on the [local_path] and [err] an earlier batch left
    there: after a batch has returned, on whatever path, the same
    environment skips the same requests and builds the same download
    targets for any list as it did before. *)
Theorem resolution_ignores_earlier_results env handle targets flags gerr w :
  entry_assert_passes env gerr w = true ->
  targets <> [] ->
  repotype handle = LR_YUMREPO ->
  valid_targets targets w ->
  exists r w',
    lr_download_packages env handle targets flags gerr w = Returned r w' /\
    (forall p, is_skipped env (heap w') p = is_skipped env (heap w) p) /\
    (forall ps, handed_over env ps w' = handed_over env ps w) /\
    (forall ps, valid_targets ps w' <-> valid_targets ps w).
Proof.
  intros Hentry Hne Hrepo Hv.
  destruct (batch_heap_effect env handle targets flags gerr w)
    as (r & w' & Hrun & Hq); auto.
  exists r, w'. split; [exact Hrun|].
  assert (Hpl : forall p, planned env (heap w') p = planned env (heap w) p).
  { intros p. unfold planned. specialize (Hq p).
    destruct (heap w !! p) as [t|]; [|by rewrite Hq].
    destruct Hq as (t' & -> & Hsame & _).
    destruct (same_request_views env p t t' Hsame) as (_ & -> & ->). reflexivity. }
  split; [|split].
  - intros p. unfold is_skipped. specialize (Hq p).
    destruct (heap w !! p) as [t|]; [|by rewrite Hq].
    destruct Hq as (t' & -> & Hsame & _).
    by destruct (same_request_views env p t t' Hsame) as (_ & -> & _).
  - intros ps. unfold handed_over. by apply omap_pointwise.
  - intros ps. unfold valid_targets. rewrite !Forall_forall.
    split; intros H p Hp; specialize (H p Hp); specialize (Hq p);
      destruct (heap w !! p) as [t|].
    + eauto.
    + rewrite Hq in H. by destruct H.
    + destruct Hq as (t' & -> & _). eauto.
    + by destruct H.
Qed.

Lemma resolution_ignores_earlier_results_witness :
  exists r w',
    lr_download_packages sample_env sample_handle sample_targets 1 err_slot sample_world
    = Returned r w' /\
    dt_userdata <$> handed_over sample_env sample_targets w' = [1; 3]%positive.
Proof.
  destruct (resolution_ignores_earlier_results sample_env sample_handle sample_targets 1
              err_slot sample_world)
    as (r & w' & Hrun & _ & Hsame & _); try reflexivity; try discriminate.
  - unfold valid_targets, sample_targets. repeat constructor; eexists; reflexivity.
  - exists r, w'. split; [exact Hrun|]. rewrite Hsame. vm_compute. reflexivity.
Defined.

(** ** A request without destination stays in the working directory *)

(** X9. A request without a destination whose relative URL has a
    character other than the directory separator is given a local path
    that is a bare file name: not empty and without a separator in it, so
    the file is looked for and written in the current directory. *)
Theorem no_destination_means_bare_file_name env handle targets flags gerr w p t :
  reaches_resolution env handle targets gerr w ->
  p ∈ targets ->
  heap w !! p = Some t ->
  dest t = None ->
  (exists c, c ∈ list_ascii_of_string (relative_url t) /\
             GLib.is_dir_separator c = false) ->
  exists r w' t' name,
    lr_download_packages env handle targets flags gerr w = Returned r w' /\
    heap w' !! p = Some t' /\
    local_path t' = Some name /\
    GLib.plain (list_ascii_of_string name).
Proof.
  intros Hr Hin Hp Hdest Hname.
  eexists _, _, _, _. split; [by apply batch_transfer_outcome|].
  split; [by apply final_request|].
  split; [simpl; apply resolved_local_path|].
  unfold destination_filename. rewrite Hdest.
  by apply GLibFacts.basename_plain.
Qed.

Lemma no_destination_means_bare_file_name_witness :
  exists r w' t' name,
    lr_download_packages sample_env sample_handle sample_targets 1 err_slot sample_world
    = Returned r w' /\
    heap w' !! 3%positive = Some t' /\
    local_path t' = Some name /\
    GLib.plain (list_ascii_of_string name).
Proof.
  apply (no_destination_means_bare_file_name sample_env sample_handle sample_targets 1
           err_slot sample_world 3%positive baz_request sample_reaches_resolution).
  - unfold sample_targets. rewrite !elem_of_cons. auto.
  - reflexivity.
  - reflexivity.
  - exists "p"%char. split; [|reflexivity].
    vm_compute. apply elem_of_cons. left. reflexivity.
Defined.

(** ** File handles of the check *)

Lemma count_events_app f es1 es2 :
  count_events f (es1 ++ es2) = count_events f es1 + count_events f es2.
Proof. unfold count_events. by rewrite List.filter_app, length_app. Qed.

Lemma check_events_balanced env t :
  count_events is_close (check_events env t)
  = count_events (is_successful_open env) (check_events env t) /\
  count_events is_checksum_cmp (check_events env t)
  = count_events (is_successful_open env) (check_events env t) /\
  count_events (is_successful_open env) (check_events env t) <= 1.
Proof.
  unfold check_events, count_events.
  destruct (checksum t) as [sum|]; [|simpl; lia].
  destruct (skip_check_runs env t); [|simpl; lia].
  destruct (open_rdonly env (destination_filename env t)) eqn:Hop;
    simpl; rewrite Hop; simpl; lia.
Qed.

Lemma planned_events_balanced env h ps :
  count_events is_close (flat_map (planned_events env h) ps)
  = count_events (is_successful_open env) (flat_map (planned_events env h) ps) /\
  count_events is_checksum_cmp (flat_map (planned_events env h) ps)
  = count_events (is_successful_open env) (flat_map (planned_events env h) ps) /\
  count_events (is_successful_open env) (flat_map (planned_events env h) ps)
  <= length ps.
Proof.
  induction ps as [|p ps (IH1 & IH2 & IH3)]; [simpl; unfold count_events; simpl; lia|].
  simpl. rewrite !count_events_app.
  assert (H : count_events is_close (planned_events env h p)
              = count_events (is_successful_open env) (planned_events env h p) /\
              count_events is_checksum_cmp (planned_events env h p)
              = count_events (is_successful_open env) (planned_events env h p) /\
              count_events (is_successful_open env) (planned_events env h p) <= 1).
  { unfold planned_events. destruct (h !! p); [apply check_events_balanced|].
    unfold count_events. simpl. lia. }
  lia.
Qed.



(** ** Nothing left to download *)

(** X11. When every request of the list is already downloaded the engine
    is still called, once and with an empty list, and, unless an
    interruption is reported, its answer for the empty list is what the
    call returns; every request carries the "Already downloaded" marker. *)
Theorem all_skipped_still_calls_engine env handle targets flags gerr w :
  reaches_resolution env handle targets gerr w ->
  (forall p, p ∈ targets -> is_skipped env (heap w) p = true) ->
  interruptible handle = false \/ interrupted_in_window env w = false ->
  exists w' checks,
    lr_download_packages env handle targets flags gerr w
    = Returned (eng_ret (download_engine env [] (failfast_of env flags))) w' /\
    trace w' = trace w ++ EvPrepareMirrorlist :: checks
                 ++ [EvDownload [] (failfast_of env flags)] /\
    (forall ds ff, EvDownload ds ff ∉ checks) /\
    (forall p, p ∈ targets ->
       exists t', heap w' !! p = Some t' /\ err t' = Some already_downloaded).
Proof.
  intros Hr Hall Hquiet. pose proof Hr as (_ & Hprep & Hv).
  assert (Hnone : handed_over env targets w = []).
  { apply fmap_nil_inv with (f := dt_userdata).
    rewrite handed_over_userdata by exact Hv.
    clear -Hall. induction targets as [|p ps IH]; [reflexivity|].
    rewrite filter_cons_False.
    - apply IH. intros q Hq. apply Hall, elem_of_cons. auto.
    - rewrite Hall by (apply elem_of_cons; auto). discriminate. }
  assert (Hq : interruptible handle
               && lr_interrupt (after_copy env handle targets flags gerr w) = false).
  { destruct (interruptible handle) eqn:Hi; [|reflexivity].
    destruct Hquiet as [|Hquiet]; [discriminate|].
    rewrite andb_true_l, after_copy_flag by exact Hi.
    unfold interrupted_in_window in Hquiet. by rewrite Hprep, andb_true_l in Hquiet. }
  eexists _, _. split.
  { rewrite batch_transfer_outcome by exact Hr. unfold result_of, engine_answer.
    by rewrite Hq, Hnone. }
  split.
  { rewrite after_restore_trace, after_copy_trace, Hnone. reflexivity. }
  split; [intros ds ff; apply checks_hold_no_download|].
  intros p Hin. unfold valid_targets in Hv. rewrite Forall_forall in Hv.
  destruct (Hv p Hin) as [t Hp].
  eexists. split; [by apply final_request|].
  simpl. rewrite Hnone. unfold annotate. simpl.
  rewrite resolved_err. specialize (Hall p Hin).
  unfold is_skipped in Hall. rewrite Hp in Hall. by rewrite Hall.
Qed.

Lemma all_skipped_still_calls_engine_witness :
  exists w' checks,
    lr_download_packages sample_env sample_handle [2%positive] 1 err_slot sample_world
    = Returned false w' /\
    trace w' = EvPrepareMirrorlist :: checks ++ [EvDownload [] 1].
Proof.
  destruct (all_skipped_still_calls_engine sample_env sample_handle [2%positive] 1
              err_slot sample_world) as (w' & checks & Hrun & Htrace & _).
  - repeat split; try discriminate; try reflexivity.
    unfold valid_targets. repeat constructor; eexists; reflexivity.
  - intros p [->|[]%elem_of_nil]%elem_of_cons. reflexivity.
  - right. reflexivity.
  - exists w', checks. auto.
Defined.

(** ** An interruption keeps the per-request results *)



(** * Beyond the claims: lr_packagetarget_new and lr_packagetarget_free *)

(** X13. When the allocation fails the constructor returns NULL and
    reports an out-of-memory error through [err] (when [err] is not NULL
    and holds no error yet); no request comes into being. *)
Theorem packagetarget_new_out_of_memory env rel hint type sum size base resume_flag
    cb data gerr w :
  entry_assert_passes env gerr w = true ->
  malloc_ok env = false ->
  exists w',
    lr_packagetarget_new env rel hint type sum size base resume_flag cb data gerr w
    = Returned None w' /\
    heap w' = heap w /\
    gerror w' = match gerr, gerror w with
                | err_slot, None => Some memory_error
                | _, e => e
                end.
Proof.
  intros Hentry Hm. exists (put_error gerr memory_error w). split.
  - unfold lr_packagetarget_new, bind, get, assert_, g_set_error, modify, ret.
    unfold entry_assert_passes in Hentry. rewrite Hentry, Hm. reflexivity.
  - autorewrite with frame. split; [reflexivity|].
    unfold put_error. destruct gerr; [reflexivity|].
    destruct (gerror w) eqn:E; simpl; rewrite ?E; reflexivity.
Qed.

Lemma packagetarget_new_out_of_memory_witness :
  exists w',
    lr_packagetarget_new (with_malloc_ok false sample_env) "pkgs/foo-1.0.rpm" None
      LR_CHECKSUM_UNKNOWN None 0 None false None None err_slot sample_world
    = Returned None w' /\
    heap w' = heap sample_world /\ gerror w' = Some memory_error.
Proof.
  apply (packagetarget_new_out_of_memory (with_malloc_ok false sample_env)
           "pkgs/foo-1.0.rpm" None LR_CHECKSUM_UNKNOWN None 0 None false None None
           err_slot sample_world); reflexivity.
Defined.

(** X14. A successful constructor returns the address of a new request:
    an address that was not in use, now holding the arguments with no
    local path and no error; every other request is as it was, and the
    caller's error is untouched. *)
Theorem packagetarget_new_is_fresh env rel hint type sum size base resume_flag
    cb data gerr w :
  entry_assert_passes env gerr w = true ->
  malloc_ok env = true ->
  exists p w' t,
    lr_packagetarget_new env rel hint type sum size base resume_flag cb data gerr w
    = Returned (Some p) w' /\
    heap w !! p = None /\
    heap w' !! p = Some t /\
    relative_url t = rel /\ dest t = hint /\ checksum_type t = type /\
    checksum t = sum /\ expectedsize t = size /\ base_url t = base /\
    resume t = resume_flag /\ progresscb t = cb /\ cbdata t = data /\
    local_path t = None /\ err t = None /\
    (forall q, q <> p -> heap w' !! q = heap w !! q) /\
    gerror w' = gerror w.
Proof.
  intros Hentry Hm.
  eexists _, _, _. split; [by apply lr_packagetarget_new_run|].
  split; [apply fresh_pointer_unused|].
  split; [simpl; apply lookup_insert_eq|].
  repeat (split; [reflexivity|]).
  split; [|reflexivity].
  intros q Hq. simpl. by rewrite lookup_insert_ne.
Qed.

Lemma packagetarget_new_is_fresh_witness :
  exists p w' t,
    lr_packagetarget_new sample_env "pkgs/qux.rpm" (Some "/tmp/repo")
      (LR_CHECKSUM_ALGO 6) (Some "abc") 10 None true None None err_slot sample_world
    = Returned (Some p) w' /\
    heap sample_world !! p = None /\
    heap w' !! p = Some t /\ relative_url t = "pkgs/qux.rpm" /\ err t = None /\
    heap w' !! 1%positive = Some foo_request.
Proof.
  destruct (packagetarget_new_is_fresh sample_env "pkgs/qux.rpm" (Some "/tmp/repo")
              (LR_CHECKSUM_ALGO 6) (Some "abc") 10 None true None None
              err_slot sample_world)
    as (p & w' & t & Hrun & Hfresh & Ht & Hrel & _ & _ & _ & _ & _ & _ & _ & _ & _
        & Herr & Hother & _); try reflexivity.
  exists p, w', t. split; [exact Hrun|]. split; [exact Hfresh|]. split; [exact Ht|].
  split; [exact Hrel|]. split; [exact Herr|].
  rewrite Hother; [reflexivity|].
  intros <-. vm_compute in Hfresh. discriminate.
Defined.

Lemma set_heap_same (w : World) : set_heap (heap w) w = w.
Proof. by apply world_ext. Qed.

(** X15. Constructing a request and freeing it again gives back the
    state the constructor was called in. *)
Theorem packagetarget_new_free_round_trip env rel hint type sum size base resume_flag
    cb data gerr w :
  entry_assert_passes env gerr w = true ->
  malloc_ok env = true ->
  (do target <- lr_packagetarget_new env rel hint type sum size base resume_flag
                  cb data gerr ;
   match target with
   | Some target => lr_packagetarget_free target
   | None => ret tt
   end) w = Returned tt w.
Proof.
  intros Hentry Hm.
  erewrite bind_run by (by apply lr_packagetarget_new_run).
  unfold lr_packagetarget_free. simpl. rewrite lookup_insert_eq.
  f_equal. apply world_ext; simpl; auto.
  apply delete_insert_id, fresh_pointer_unused.
Qed.

Lemma packagetarget_new_free_round_trip_witness :
  (do target <- lr_packagetarget_new sample_env "pkgs/qux.rpm" None
                  LR_CHECKSUM_UNKNOWN None 0 None false None None err_slot ;
   match target with
   | Some target => lr_packagetarget_free target
   | None => ret tt
   end) sample_world = Returned tt sample_world.
Proof.
  apply (packagetarget_new_free_round_trip sample_env "pkgs/qux.rpm" None
           LR_CHECKSUM_UNKNOWN None 0 None false None None err_slot sample_world);
    reflexivity.
Defined.

(** * Beyond the claims: lr_download_package *)

(** X16. When the request cannot be allocated the wrapper returns FALSE
    with the out-of-memory error and the batch is never entered: no
    handler is installed and no collaborator is called. *)
Theorem wrapper_out_of_memory env handle rel hint type sum size base resume_flag gerr w :
  entry_assert_passes env gerr w = true ->
  malloc_ok env = false ->
  exists w',
    lr_download_package env handle rel hint type sum size base resume_flag gerr w
    = Returned false w' /\
    heap w' = heap w /\ trace w' = trace w /\
    sigaction_log w' = sigaction_log w /\ sigint_action w' = sigint_action w /\
    gerror w' = match gerr, gerror w with
                | err_slot, None => Some memory_error
                | _, e => e
                end.
Proof.
  intros Hentry Hm. exists (put_error gerr memory_error w). split.
  - unfold lr_download_package.
    erewrite bind_run by reflexivity.
    erewrite bind_run; cycle 1.
    { unfold assert_. unfold entry_assert_passes in Hentry. by rewrite Hentry. }
    erewrite bind_run; cycle 1.
    { unfold lr_packagetarget_new, bind, get, assert_, g_set_error, modify, ret.
      unfold entry_assert_passes in Hentry. rewrite Hentry, Hm. reflexivity. }
    reflexivity.
  - autorewrite with frame. repeat (split; [reflexivity|]).
    unfold put_error. destruct gerr; [reflexivity|].
    destruct (gerror w) eqn:E; simpl; rewrite ?E; reflexivity.
Qed.

Lemma wrapper_out_of_memory_witness :
  exists w',
    lr_download_package (with_malloc_ok false sample_env) sample_handle
      "pkgs/foo-1.0.rpm" None LR_CHECKSUM_UNKNOWN None 0 None false err_slot sample_world
    = Returned false w' /\
    trace w' = [] /\ gerror w' = Some memory_error.
Proof.
  destruct (wrapper_out_of_memory (with_malloc_ok false sample_env) sample_handle
              "pkgs/foo-1.0.rpm" None LR_CHECKSUM_UNKNOWN None 0 None false
              err_slot sample_world)
    as (w' & Hrun & _ & Htrace & _ & _ & Herr); try reflexivity.
  exists w'. auto.
Defined.

(** The three ways a batch returns past its entry checks. *)
Lemma batch_paths env handle targets flags gerr w :
  entry_assert_passes env gerr w = true ->
  targets <> [] ->
  repotype handle = LR_YUMREPO ->
  valid_targets targets w ->
  exists r w',
    lr_download_packages env handle targets flags gerr w = Returned r w' /\
    (w' = put_error gerr sigaction_error w \/
     w' = after_restore handle gerr w (after_prepare env handle gerr w) \/
     w' = after_restore handle gerr w (after_copy env handle targets flags gerr w)).
Proof.
  intros Hentry Hne Hrepo Hv.
  destruct (interruptible handle && negb (sigaction_ok env)) eqn:Hfail.
  - apply andb_true_iff in Hfail as [Hi Hsig%negb_true_iff].
    eexists _, _. split; [by apply batch_sigaction_failed|]. auto.
  - assert (Hg : guard_installed env handle targets gerr w).
    { repeat split; auto. intros Hi. rewrite Hi in Hfail.
      by destruct (sigaction_ok env). }
    destruct (fst (prepare_internal_mirrorlist env)) eqn:Hprep.
    + eexists _, _. split; [by apply batch_transfer_outcome|]. auto.
    + eexists _, _. split; [by apply batch_prepare_failed_outcome|]. auto.
Qed.

(** X17. The wrapper is a fail-fast batch of one that cleans up after
    itself: on every path past its entry checks it returns with the heap
    of requests exactly as it found it (the request it built is freed,
    the others are untouched), and if the engine was called it was called
    with the fail-fast flag and with at most one target. *)
Theorem wrapper_frees_its_request env handle rel hint type sum size base resume_flag
    gerr w :
  entry_assert_passes env gerr w = true ->
  malloc_ok env = true ->
  repotype handle = LR_YUMREPO ->
  exists r w' events,
    lr_download_package env handle rel hint type sum size base resume_flag gerr w
    = Returned r w' /\
    heap w' = heap w /\
    trace w' = trace w ++ events /\
    (forall ds ff, EvDownload ds ff ∈ events ->
       ff = LR_PACKAGEDOWNLOAD_FAILFAST env /\ length ds <= 1).
Proof.
  intros Hentry Hm Hrepo.
  set (t0 := wrapper_request handle rel hint type sum size base resume_flag).
  set (p := wrapper_pointer w).
  set (w1 := wrapper_world t0 w).
  pose proof (fresh_pointer_unused (heap w)) as Hfresh. fold p in Hfresh.
  assert (Hp1 : heap w1 !! p = Some t0) by (simpl; apply lookup_insert_eq).
  destruct (batch_paths env handle [p] (LR_PACKAGEDOWNLOAD_FAILFAST env) gerr w1)
    as (r & w2 & Hrun & Hpath); auto; try discriminate.
  { unfold valid_targets. repeat constructor. eauto. }
  assert (Hstart :
    lr_download_package env handle rel hint type sum size base resume_flag gerr w
    = (do r <- lr_download_packages env handle [p] (LR_PACKAGEDOWNLOAD_FAILFAST env) gerr ;
       lr_packagetarget_free p ;; ret r) w1).
  { unfold lr_download_package.
    erewrite bind_run by reflexivity.
    erewrite bind_run; cycle 1.
    { unfold assert_. unfold entry_assert_passes in Hentry. by rewrite Hentry. }
    erewrite bind_run by (by apply lr_packagetarget_new_run).
    reflexivity. }
  rewrite Hstart. erewrite bind_run by exact Hrun.
  unfold bind, lr_packagetarget_free, ret.
  destruct Hpath as [->|[->| ->]].
  - autorewrite with frame. rewrite Hp1.
    exists r, (set_heap (delete p (heap w1)) (put_error gerr sigaction_error w1)), [].
    split; [reflexivity|]. simpl. autorewrite with frame.
    split; [by apply delete_insert_id|]. split; [by rewrite app_nil_r|].
    intros ds ff []%elem_of_nil.
  - rewrite after_restore_heap, after_prepare_heap, Hp1.
    eexists r, _, [EvPrepareMirrorlist].
    split; [reflexivity|]. simpl.
    split; [by apply delete_insert_id|].
    split; [by rewrite after_restore_trace, after_prepare_trace|].
    intros ds ff [?|[]%elem_of_nil]%elem_of_cons. discriminate.
  - rewrite (final_request env handle [p] _ gerr w1 p t0);
      [|apply elem_of_cons; auto|exact Hp1].
    eexists r, _, _. split; [reflexivity|].
    split; [simpl; unfold w1, wrapper_world; by apply wrapper_leaves_heap|].
    split; [simpl; by rewrite after_restore_trace, after_copy_trace|].
    intros ds ff [?|Hin]%elem_of_cons; [discriminate|].
    apply elem_of_app in Hin as [Hin|Hin].
    { by apply checks_hold_no_download in Hin. }
    apply list_elem_of_singleton in Hin. injection Hin as -> ->.
    split; [apply Z.land_diag|].
    unfold handed_over. csimpl. destruct (planned _ _ _); simpl; lia.
Qed.

Lemma wrapper_frees_its_request_witness :
  exists r w' events,
    lr_download_package (with_prepare (false, Some no_mirrors_error) sample_env)
      sample_handle "pkgs/foo-1.0.rpm" None (LR_CHECKSUM_ALGO 6) (Some "abc") 0 None
      true err_slot sample_world = Returned r w' /\
    heap w' = heap sample_world /\
    trace w' = events.
Proof.
  destruct (wrapper_frees_its_request
              (with_prepare (false, Some no_mirrors_error) sample_env)
              sample_handle "pkgs/foo-1.0.rpm" None (LR_CHECKSUM_ALGO 6) (Some "abc")
              0 None true err_slot sample_world)
    as (r & w' & events & Hrun & Hheap & Htrace & _); try reflexivity.
  exists r, w', events. auto.
Defined.

(** * Beyond the claims: a caller that comes with an error pending *)

Lemma raised_keeps_pending e e0 w :
  gerror w = Some e0 -> gerror (raised err_slot e w) = Some e0.
Proof.
  intros H. destruct e as [e|]; simpl; [|exact H].
  unfold put_error. by rewrite H.
Qed.

(** X18. A call with an error already in the caller's [GError *] breaks
    the entry assertion: in a build with assertions the batch call, the
    wrapper and the constructor abort before doing anything.  In a build
    with NDEBUG the batch runs, and, unless an interruption is reported,
    comes back with the pending error still in place: the errors that the
    mirrorlist preparation and the engine raise are dropped, never written
    over it. *)
Theorem pending_error_aborts_or_survives env handle targets flags w e0 :
  gerror w = Some e0 ->
  (ndebug env = false ->
   lr_download_packages env handle targets flags err_slot w = Aborted w /\
   (forall rel hint type sum size base resume_flag,
      lr_download_package env handle rel hint type sum size base resume_flag
        err_slot w = Aborted w) /\
   (forall rel hint type sum size base resume_flag cb data,
      lr_packagetarget_new env rel hint type sum size base resume_flag cb data
        err_slot w = Aborted w)) /\
  (ndebug env = true ->
   targets <> [] ->
   repotype handle = LR_YUMREPO ->
   (interruptible handle = true -> sigaction_ok env = true) ->
   fst (prepare_internal_mirrorlist env) = true ->
   valid_targets targets w ->
   interruptible handle = false \/ interrupted_in_window env w = false ->
   exists w',
     lr_download_packages env handle targets flags err_slot w
     = Returned (eng_ret (download_engine env (handed_over env targets w)
                            (failfast_of env flags))) w' /\
     gerror w' = Some e0).
Proof.
  intros Hpending. split.
  - intros Hnd.
    assert (Hbad : ndebug env || no_error_yet err_slot w = false).
    { rewrite Hnd. simpl. by rewrite Hpending. }
    repeat split; intros;
      unfold lr_download_packages, lr_download_package, lr_packagetarget_new,
        bind, get, assert_; by rewrite Hbad.
  - intros Hnd Hne Hrepo Hsig Hprep Hv Hquiet.
    assert (Hr : reaches_resolution env handle targets err_slot w).
    { repeat split; auto. unfold entry_assert_passes. by rewrite Hnd. }
    assert (Hq : interruptible handle
                 && lr_interrupt (after_copy env handle targets flags err_slot w) = false).
    { destruct (interruptible handle) eqn:Hi; [|reflexivity].
      destruct Hquiet as [|Hquiet]; [discriminate|].
      rewrite andb_true_l, after_copy_flag by exact Hi.
      unfold interrupted_in_window in Hquiet. by rewrite Hprep, andb_true_l in Hquiet. }
    eexists. split.
    + rewrite batch_transfer_outcome by exact Hr. unfold result_of. by rewrite Hq.
    + rewrite after_restore_gerror_quiet by exact Hq. rewrite after_copy_gerror.
      unfold raised_by_collaborators. by apply raised_keeps_pending, raised_keeps_pending.
Qed.

Lemma pending_error_aborts_or_survives_witness :
  lr_download_packages sample_env sample_handle sample_targets 1 err_slot pending_world
  = Aborted pending_world /\
  exists w',
    lr_download_packages release_env sample_handle sample_targets 1 err_slot pending_world
    = Returned false w' /\
    gerror w' = Some pending_error.
Proof.
  destruct (pending_error_aborts_or_survives sample_env sample_handle sample_targets 1
              pending_world pending_error eq_refl) as [Habort _].
  destruct (pending_error_aborts_or_survives release_env sample_handle sample_targets 1
              pending_world pending_error eq_refl) as [_ Hsurvive].
  split.
  - apply Habort. reflexivity.
  - apply Hsurvive; try reflexivity; try discriminate.
    + unfold valid_targets, sample_targets. repeat constructor; eexists; reflexivity.
    + right. reflexivity.
Defined.

(** * Beyond the claims: the interruption flag *)

Lemma deliver_sigint_keeps_flag env ph w :
  lr_interrupt w = true -> lr_interrupt (deliver_sigint env ph w) = true.
Proof. intros H. by rewrite deliver_sigint_flag, H. Qed.

Lemma after_prepare_keeps_flag env handle gerr w :
  lr_interrupt w = true -> lr_interrupt (after_prepare env handle gerr w) = true.
Proof.
  intros H. unfold after_prepare, guarded. rewrite raised_flag.
  apply deliver_sigint_keeps_flag. simpl. by destruct (interruptible handle).
Qed.

Lemma after_copy_keeps_flag env handle targets flags gerr w :
  lr_interrupt w = true ->
  lr_interrupt (after_copy env handle targets flags gerr w) = true.
Proof.
  intros H. unfold after_copy, after_download, after_resolution. simpl.
  rewrite raised_flag. apply deliver_sigint_keeps_flag. simpl.
  apply deliver_sigint_keeps_flag. by apply after_prepare_keeps_flag.
Qed.


